(** * Herald v0.1: the hunger and movement core of [herald.py]

    A shallow embedding of the classes [World] and [Herald] and of the
    rule-based policy [Game.herald_auto_decide], followed by the properties
    of the actor state machine: bounds, hunger clamp, death, eating,
    perception and greedy stepping.

    Python integers are unbounded, so coordinates and hunger are [Z].  The
    food set is a [gset (Z * Z)].  Methods that mutate [self] or the shared
    [World] are computations in a state monad over one [Store] holding the
    single world, the single actor that refers to it, and the console. *)

From stdpp Require Import base numbers list list_numbers sorting gmap sets strings pretty.

Local Open Scope Z_scope.

(** ** Data model *)

(** [class World]: [width], [height] and the set [food_locations]. *)
Record World := mkWorld {
  width : Z;
  height : Z;
  food_locations : gset (Z * Z)
}.

(** The dictionary returned by [Herald.get_status]. *)
Record Status := mkStatus {
  s_status : string;
  s_location : Z * Z;
  s_hunger : Z;
  s_hunger_desc : string;
  s_sees_food : bool
}.

(** One entry of [Herald.actions_taken], as built by [log_action]. *)
Record Entry := mkEntry {
  e_timestamp : string;
  e_type : string;
  e_description : string;
  e_state : Status
}.

(** [class Herald]; its [world] attribute is the [world] of the [Store]. *)
Record Herald := mkHerald {
  x : Z;
  y : Z;
  hunger : Z;
  hunger_rate : Z;
  alive : bool;
  actions_taken : list Entry
}.

(** The objects a session owns: one world, one actor, and what was printed. *)
Record Store := mkStore {
  world : World;
  herald : Herald;
  stdout : list string
}.

(** ** World *)

Definition has_food_at (w : World) (cx cy : Z) : bool :=
  bool_decide ((cx, cy) ∈ food_locations w).

Definition remove_food_at (w : World) (cx cy : Z) : World :=
  mkWorld (width w) (height w) (food_locations w ∖ {[ (cx, cy) ]}).

Definition is_valid_position (w : World) (cx cy : Z) : bool :=
  (0 <=? cx) && (cx <? width w) && ((0 <=? cy) && (cy <? height w)).

(** ** The state monad of the methods *)

Definition M (A : Type) : Type := Store → A * Store.

#[global] Instance M_ret : MRet M := λ A a s, (a, s).
#[global] Instance M_bind : MBind M :=
  λ A B f m s, let (a, s') := m s in f a s'.
#[global] Instance M_fmap : FMap M :=
  λ A B f m s, let (a, s') := m s in (f a, s').

Definition get_self : M Herald := λ s, (herald s, s).
Definition get_world : M World := λ s, (world s, s).
Definition modify_self (f : Herald → Herald) : M () :=
  λ s, (tt, mkStore (world s) (f (herald s)) (stdout s)).
Definition modify_world (f : World → World) : M () :=
  λ s, (tt, mkStore (f (world s)) (herald s) (stdout s)).
Definition print (line : string) : M () :=
  λ s, (tt, mkStore (world s) (herald s) (stdout s ++ [line])).

Definition set_x (v : Z) (h : Herald) : Herald :=
  mkHerald v (y h) (hunger h) (hunger_rate h) (alive h) (actions_taken h).
Definition set_y (v : Z) (h : Herald) : Herald :=
  mkHerald (x h) v (hunger h) (hunger_rate h) (alive h) (actions_taken h).
Definition set_hunger (v : Z) (h : Herald) : Herald :=
  mkHerald (x h) (y h) v (hunger_rate h) (alive h) (actions_taken h).
Definition set_alive (v : bool) (h : Herald) : Herald :=
  mkHerald (x h) (y h) (hunger h) (hunger_rate h) v (actions_taken h).
Definition set_actions_taken (v : list Entry) (h : Herald) : Herald :=
  mkHerald (x h) (y h) (hunger h) (hunger_rate h) (alive h) v.

(** ** Herald *)

(** [Herald.__init__(world, x, y)]: no check of the coordinates. *)
Definition Herald_init (start_x start_y : Z) : Herald :=
  mkHerald start_x start_y 0 5 true [].

Definition get_hunger_description (h : Herald) : string :=
  if hunger h <? 20 then "Full"
  else if hunger h <? 40 then "Satisfied"
  else if hunger h <? 60 then "Getting hungry"
  else if hunger h <? 80 then "Very hungry"
  else "STARVING".

Definition get_status : M Status :=
  self ← get_self;
  w ← get_world;
  mret (mkStatus (if alive self then "ALIVE" else "DEAD")
                 (x self, y self)
                 (hunger self)
                 (get_hunger_description self)
                 (has_food_at w (x self) (y self))).

(** [log_action]: the wall-clock reading [now] is an input of the model.
    The entry is appended, and the oldest one dropped beyond 20 entries. *)
Definition log_action (now action_type description : string) : M () :=
  st ← get_status;
  modify_self (λ h, set_actions_taken
                      (actions_taken h ++ [mkEntry now action_type description st]) h);;
  self ← get_self;
  if (20 <? Z.of_nat (length (actions_taken self)))
  then modify_self (λ h, set_actions_taken (tail (actions_taken h)) h)
  else mret tt.

Definition tick (now : string) : M () :=
  self ← get_self;
  if alive self then
    modify_self (λ h, set_hunger (hunger h + hunger_rate h) h);;
    self ← get_self;
    if 100 <=? hunger self then
      modify_self (set_hunger 100);;
      modify_self (set_alive false);;
      log_action now "DIED" "Herald starved to death!"
    else mret tt
  else mret tt.

(** [move]: the coordinate is changed first, checked against the world
    next, and put back when the check fails.  [stepped] is false on the
    early return of the last [else] branch. *)
Definition move (now direction : string) : M (bool * string) :=
  self ← get_self;
  let old_x := x self in
  let old_y := y self in
  stepped ←
    (if String.eqb direction "north" then
       modify_self (λ h, set_y (y h - 1) h);; mret true
     else if String.eqb direction "south" then
       modify_self (λ h, set_y (y h + 1) h);; mret true
     else if String.eqb direction "east" then
       modify_self (λ h, set_x (x h + 1) h);; mret true
     else if String.eqb direction "west" then
       modify_self (λ h, set_x (x h - 1) h);; mret true
     else mret false);
  if negb stepped then mret (false, "Invalid direction")
  else
    self ← get_self;
    w ← get_world;
    if negb (is_valid_position w (x self) (y self)) then
      modify_self (λ h, set_y old_y (set_x old_x h));;
      mret (false, "Can't move there - out of bounds")
    else
      log_action now "MOVE"
        ("Moved " +:+ direction +:+ " to (" +:+ pretty (x self) +:+ ", "
           +:+ pretty (y self) +:+ ")");;
      mret (true, "Moved " +:+ direction).

Definition eat (now : string) : M (bool * string) :=
  self ← get_self;
  w ← get_world;
  if has_food_at w (x self) (y self) then
    modify_world (λ w, remove_food_at w (x self) (y self));;
    modify_self (λ h, set_hunger (Z.max 0 (hunger h - 50)) h);;
    self ← get_self;
    log_action now "EAT"
      ("Ate food at (" +:+ pretty (x self) +:+ ", " +:+ pretty (y self)
         +:+ "). Hunger now: " +:+ pretty (hunger self));;
    mret (true, "Ate food! Yum!")
  else mret (false, "No food here to eat").

(** The [wait] command of [Game.process_command], as far as the actor is
    concerned: one WAIT record. *)
Definition wait (now : string) : M () :=
  log_action now "WAIT" "Herald waited".

(** [range(a, b)]. *)
Definition range (a b : Z) : list Z := seqZ a (b - a).

(** [nearest_distance] starts as [float('inf')] and then holds integers. *)
Inductive Distance := Inf | Fin (d : Z).

Definition distance_lt (d : Z) (nearest : Distance) : bool :=
  match nearest with
  | Inf => true
  | Fin n => d <? n
  end.

(** The body of the inner loop of [look_around] on the pair of locals
    [(nearest_food, nearest_distance)]. *)
Definition look_at (w : World) (self : Herald) (dx dy : Z)
    (acc : option (Z * Z) * Distance) : option (Z * Z) * Distance :=
  let check_x := x self + dx in
  let check_y := y self + dy in
  if negb (is_valid_position w check_x check_y) then acc
  else if has_food_at w check_x check_y then
    let distance := Z.abs dx + Z.abs dy in
    if distance_lt distance (snd acc) then (Some (check_x, check_y), Fin distance)
    else acc
  else acc.

Definition look_around (vision_range : Z) : M (option (Z * Z)) :=
  self ← get_self;
  w ← get_world;
  let span := range (- vision_range) (vision_range + 1) in
  mret (fst (foldl (λ acc dx, foldl (λ acc dy, look_at w self dx dy acc) acc span)
                   (None, Inf) span)).

(** [move_toward] returns the pair of [move], or Python's [None] when it
    falls off the end of the last [elif]. *)
Definition move_toward (now : string) (target_x target_y : Z)
    : M (option (bool * string)) :=
  self ← get_self;
  let dx := target_x - x self in
  let dy := target_y - y self in
  print ("[DEBUG move_toward] Target: (" +:+ pretty target_x +:+ ", "
           +:+ pretty target_y +:+ "), Current: (" +:+ pretty (x self) +:+ ", "
           +:+ pretty (y self) +:+ "), dx=" +:+ pretty dx +:+ ", dy=" +:+ pretty dy);;
  if (dx =? 0) && (dy =? 0) then
    print "[DEBUG] Already at target!";;
    mret (Some (false, "Already here"))
  else if Z.abs dy <? Z.abs dx then
    if 0 <? dx then
      print "[DEBUG] Moving east";; Some <$> move now "east"
    else
      print "[DEBUG] Moving west";; Some <$> move now "west"
  else if Z.abs dx <? Z.abs dy then
    if 0 <? dy then
      print "[DEBUG] Moving south";; Some <$> move now "south"
    else
      print "[DEBUG] Moving north";; Some <$> move now "north"
  else
    if negb (dx =? 0) then
      if 0 <? dx then
        print "[DEBUG] Moving east (equal distance)";; Some <$> move now "east"
      else
        print "[DEBUG] Moving west (equal distance)";; Some <$> move now "west"
    else if negb (dy =? 0) then
      if 0 <? dy then
        print "[DEBUG] Moving south (equal distance)";; Some <$> move now "south"
      else
        print "[DEBUG] Moving north (equal distance)";; Some <$> move now "north"
    else mret None.

(** ** Game: the autonomous policy *)

(** What one call of [herald_auto_decide] may draw from the [random]
    module: the index picked by [random.choice] and the outcome of the
    floating-point test [random.random() < 0.7]. *)
Record Random := mkRandom {
  choice_index : nat;
  random_below_0_7 : bool
}.

Definition choice (rnd : Random) (options : list string) : string :=
  default "" (options !! (choice_index rnd `mod` length options)%nat).

Definition str_bool (b : bool) : string := if b then "True" else "False".

Definition herald_auto_decide (rnd : Random) (now : string) : M () :=
  status ← get_status;
  print ("[DEBUG] Hunger: " +:+ pretty (s_hunger status) +:+ ", Food here: "
           +:+ str_bool (s_sees_food status));;
  if s_sees_food status && (30 <? s_hunger status) then
    print "[Herald thinks: Food right here! I should eat.]";;
    eat now;;
    mret tt
  else if 40 <? s_hunger status then
    food_location ← look_around 2;
    match food_location with
    | Some (food_x, food_y) =>
        self ← get_self;
        let distance := Z.abs (food_x - x self) + Z.abs (food_y - y self) in
        print ("[Herald thinks: I see food " +:+ pretty distance
                 +:+ " squares away! Moving toward it...]");;
        move_toward now food_x food_y;;
        mret tt
    | None =>
        let direction := choice rnd ["north"; "south"; "east"; "west"] in
        print ("[Herald thinks: I'm hungry, let me search... moving "
                 +:+ direction +:+ "]");;
        move now direction;;
        mret tt
    end
  else if random_below_0_7 rnd then
    let direction := choice rnd ["north"; "south"; "east"; "west"] in
    print ("[Herald thinks: I'll explore " +:+ direction +:+ "]");;
    move now direction;;
    mret tt
  else
    print "[Herald thinks: I'll rest here]";;
    log_action now "WAIT" "Herald rested".

(** ** Sessions: sequences of calls on one world and one actor *)

Inductive Call :=
| CallMove (direction : string)
| CallEat
| CallTick
| CallWait
| CallLookAround (vision_range : Z)
| CallMoveToward (target_x target_y : Z)
| CallAutoDecide (rnd : Random).

(** One call made at wall-clock reading [now], its result dropped. *)
Definition call (now : string) (c : Call) : M () :=
  match c with
  | CallMove direction => move now direction;; mret tt
  | CallEat => eat now;; mret tt
  | CallTick => tick now
  | CallWait => wait now
  | CallLookAround vision_range => look_around vision_range;; mret tt
  | CallMoveToward target_x target_y => move_toward now target_x target_y;; mret tt
  | CallAutoDecide rnd => herald_auto_decide rnd now
  end.

Fixpoint run (calls : list (string * Call)) : M () :=
  match calls with
  | [] => mret tt
  | (now, c) :: rest => call now c;; run rest
  end.

(** The pair built by [World(...)] and [Herald(world, x, y)]; the food set
    of the world is left arbitrary. *)
Definition new_session (w : World) (start_x start_y : Z) : Store :=
  mkStore w (Herald_init start_x start_y) [].

(** The store after a computation. *)
Definition exec {A} (m : M A) (s : Store) : Store := snd (m s).
(** The value a computation returns. *)
Definition eval {A} (m : M A) (s : Store) : A := fst (m s).

Definition reachable (s : Store) : Prop :=
  ∃ w start_x start_y calls, s = exec (run calls) (new_session w start_x start_y).

Definition in_bounds (s : Store) : Prop :=
  0 ≤ x (herald s) < width (world s) ∧ 0 ≤ y (herald s) < height (world s).

(** ** Vocabulary of the statements *)

(** The history after one more entry, as [log_action] leaves it. *)
Definition capped (l : list Entry) : list Entry :=
  if 20 <? Z.of_nat (length l) then tail l else l.

Definition logged (now action_type description : string) (s : Store) : Store :=
  mkStore (world s)
    (set_actions_taken
       (capped (actions_taken (herald s)
                  ++ [mkEntry now action_type description (eval get_status s)]))
       (herald s))
    (stdout s).

(** The unit offset of a direction token; [None] for any other string. *)
Definition unit_offset (direction : string) : option (Z * Z) :=
  if String.eqb direction "north" then Some (0, -1)
  else if String.eqb direction "south" then Some (0, 1)
  else if String.eqb direction "east" then Some (1, 0)
  else if String.eqb direction "west" then Some (-1, 0)
  else None.

Definition at_position (cx cy : Z) (s : Store) : Store :=
  mkStore (world s) (set_y cy (set_x cx (herald s))) (stdout s).

Definition move_description (direction : string) (cx cy : Z) : string :=
  "Moved " +:+ direction +:+ " to (" +:+ pretty cx +:+ ", " +:+ pretty cy +:+ ")".

Definition printed (line : string) (s : Store) : Store :=
  mkStore (world s) (herald s) (stdout s ++ [line]).

Definition eat_description (cx cy hu : Z) : string :=
  "Ate food at (" +:+ pretty cx +:+ ", " +:+ pretty cy
    +:+ "). Hunger now: " +:+ pretty hu.

(** The direction [move_toward] picks, [None] when already at the target. *)
Definition toward (dx dy : Z) : option string :=
  if (dx =? 0) && (dy =? 0) then None
  else if Z.abs dy <? Z.abs dx then Some (if 0 <? dx then "east" else "west")
  else if Z.abs dx <? Z.abs dy then Some (if 0 <? dy then "south" else "north")
  else if negb (dx =? 0) then Some (if 0 <? dx then "east" else "west")
  else Some (if 0 <? dy then "south" else "north").

Definition toward_banner (target_x target_y : Z) (h : Herald) : string :=
  "[DEBUG move_toward] Target: (" +:+ pretty target_x +:+ ", "
    +:+ pretty target_y +:+ "), Current: (" +:+ pretty (x h) +:+ ", "
    +:+ pretty (y h) +:+ "), dx=" +:+ pretty (target_x - x h)
    +:+ ", dy=" +:+ pretty (target_y - y h).

Definition toward_note (dx dy : Z) : string :=
  if (dx =? 0) && (dy =? 0) then "[DEBUG] Already at target!"
  else if Z.abs dy <? Z.abs dx then
    (if 0 <? dx then "[DEBUG] Moving east" else "[DEBUG] Moving west")
  else if Z.abs dx <? Z.abs dy then
    (if 0 <? dy then "[DEBUG] Moving south" else "[DEBUG] Moving north")
  else if negb (dx =? 0) then
    (if 0 <? dx then "[DEBUG] Moving east (equal distance)"
     else "[DEBUG] Moving west (equal distance)")
  else
    (if 0 <? dy then "[DEBUG] Moving south (equal distance)"
     else "[DEBUG] Moving north (equal distance)").

(** What every call keeps: the grid size, the hunger rate, food only ever
    removed, the position inside the grid, hunger inside [0,100], death, and
    a history of at most 20 entries. *)
Record evolves (s s' : Store) : Prop := mkEvolves {
  ev_width : width (world s') = width (world s);
  ev_height : height (world s') = height (world s);
  ev_food : food_locations (world s') ⊆ food_locations (world s);
  ev_rate : hunger_rate (herald s') = hunger_rate (herald s);
  ev_bounds : in_bounds s → in_bounds s';
  ev_hunger :
    hunger_rate (herald s) = 5 →
    0 ≤ hunger (herald s) ≤ 100 → 0 ≤ hunger (herald s') ≤ 100;
  ev_dead : alive (herald s) = false → alive (herald s') = false;
  ev_history :
    (length (actions_taken (herald s)) ≤ 20)%nat →
    (length (actions_taken (herald s')) ≤ 20)%nat
}.

(** The first line [herald_auto_decide] prints. *)
Definition decide_banner (s : Store) : string :=
  "[DEBUG] Hunger: " +:+ pretty (hunger (herald s)) +:+ ", Food here: "
    +:+ str_bool (has_food_at (world s) (x (herald s)) (y (herald s))).

Definition explore_direction (rnd : Random) : string :=
  choice rnd ["north"; "south"; "east"; "west"].

(** The second line [herald_auto_decide] prints: the thought of the rule
    that fires. *)
Definition decide_note (rnd : Random) (s : Store) : string :=
  let h := herald s in
  if has_food_at (world s) (x h) (y h) && (30 <? hunger h) then
    "[Herald thinks: Food right here! I should eat.]"
  else if 40 <? hunger h then
    match eval (look_around 2) s with
    | Some (food_x, food_y) =>
        "[Herald thinks: I see food "
          +:+ pretty (Z.abs (food_x - x h) + Z.abs (food_y - y h))
          +:+ " squares away! Moving toward it...]"
    | None =>
        "[Herald thinks: I'm hungry, let me search... moving "
          +:+ explore_direction rnd +:+ "]"
    end
  else if random_below_0_7 rnd then
    "[Herald thinks: I'll explore " +:+ explore_direction rnd +:+ "]"
  else "[Herald thinks: I'll rest here]".

(** The offsets in the order the two loops visit them. *)
Definition scan_order (vision_range : Z) : list (Z * Z) :=
  let span := range (- vision_range) (vision_range + 1) in
  dx ← span; (λ dy, (dx, dy)) <$> span.

(** The offset [b] is visited after the offset [a]. *)
Definition scan_before (a b : Z * Z) : Prop :=
  a.1 < b.1 ∨ (a.1 = b.1 ∧ a.2 < b.2).

Definition manhattan (d : Z * Z) : Z := Z.abs d.1 + Z.abs d.2.

(** The cell at offset [d] from the actor is inside the grid and holds food. *)
Definition food_in_view (s : Store) (d : Z * Z) : bool :=
  is_valid_position (world s) (x (herald s) + d.1) (y (herald s) + d.2)
  && has_food_at (world s) (x (herald s) + d.1) (y (herald s) + d.2).

(** What the locals [(nearest_food, nearest_distance)] hold after the cells
    at the offsets [seen] were visited. *)
Definition nearest_of (s : Store) (seen : list (Z * Z))
    (acc : option (Z * Z) * Distance) : Prop :=
  match acc with
  | (None, Inf) => ∀ d, d ∈ seen → food_in_view s d = false
  | (Some c, Fin n) =>
      ∃ d, d ∈ seen ∧ c = (x (herald s) + d.1, y (herald s) + d.2)
           ∧ n = manhattan d ∧ food_in_view s d = true
           ∧ ∀ d', d' ∈ seen → food_in_view s d' = true →
                   n < manhattan d' ∨ (n = manhattan d' ∧ (d = d' ∨ scan_before d d'))
  | _ => False
  end.

(** The DIED records of a history. *)
Definition died_records (l : list Entry) : list Entry :=
  filter (λ e, e_type e = "DIED") l.

(** The same store with the actor marked alive. *)
Definition revived (s : Store) : Store :=
  mkStore (world s) (set_alive true (herald s)) (stdout s).

(** Position, hunger and food: what death permanence speaks of. *)
Definition core (s : Store) : Z * Z * Z * gset (Z * Z) :=
  (x (herald s), y (herald s), hunger (herald s), food_locations (world s)).

(** ** Sample sessions *)

(** A 10 by 10 world holding the given food, as [Game.reset_world] sizes it. *)
Definition w10 (food : list (Z * Z)) : World := mkWorld 10 10 (list_to_set food).

(** [n] calls of [tick]. *)
Definition ticks (n : nat) : list (string * Call) := replicate n ("12:00:00", CallTick).

(** A walk into the corner, a meal there, and a rest. *)
Definition sample_calls : list (string * Call) :=
  [("12:00:00", CallMove "west"); ("12:00:01", CallTick);
   ("12:00:02", CallMove "north"); ("12:00:03", CallEat);
   ("12:00:04", CallWait)].

(** An actor starved by twenty ticks, one step west of the only food. *)
Definition starved : Store :=
  exec (run (ticks 20)) (new_session (w10 [(6, 5)]) 5 5).

(** The Manhattan distance from the actor to a cell. *)
Definition distance_to (target_x target_y : Z) (s : Store) : Z :=
  Z.abs (target_x - x (herald s)) + Z.abs (target_y - y (herald s)).

(** One [move_toward] the same target per wall-clock reading. *)
Definition approach (target_x target_y : Z) (nows : list string)
    : list (string * Call) :=
  (λ now, (now, CallMoveToward target_x target_y)) <$> nows.

(** Calls that cannot feed the actor: all but [eat] and the policy. *)
Definition fasting (c : Call) : bool :=
  match c with
  | CallEat | CallAutoDecide _ => false
  | _ => true
  end.

Definition is_tick (c : Call) : bool :=
  match c with
  | CallTick => true
  | _ => false
  end.

(** The number of [tick] calls in a sequence of calls. *)
Fixpoint ticks_in (calls : list (string * Call)) : Z :=
  match calls with
  | [] => 0
  | (_, c) :: rest => (if is_tick c then 1 else 0) + ticks_in rest
  end.

(** Hunger, life and hunger rate of the actor. *)
Definition vitals (s : Store) : Z * bool * Z :=
  (hunger (herald s), alive (herald s), hunger_rate (herald s)).

(** Hunger moves in steps of the constructor's rate, and a live actor is
    below the death threshold. *)
Definition healthy (s : Store) : Prop :=
  hunger_rate (herald s) = 5
  ∧ (5 | hunger (herald s))
  ∧ 0 ≤ hunger (herald s) ≤ 100
  ∧ (alive (herald s) = true → hunger (herald s) ≤ 95).

(** ** World construction *)

(** [random.randint(a, b)]: a ValueError ([None]) on an empty range, and
    otherwise any integer from [a] to [b], here the one the generator's raw
    draw [raw] selects. *)
Definition randint (a b raw : Z) : option Z :=
  if b <? a then None else Some (a + raw `mod` (b - a + 1)).

(** [World.spawn_initial_food]: eight draws of a cell; the draw of round [i]
    takes the raw numbers [gen (2 i)] and [gen (2 i + 1)].  A ValueError of
    [randint] ends the call. *)
Definition spawn_initial_food (gen : nat → Z) (w : World) : option World :=
  foldl (λ acc i,
           w' ← acc;
           cx ← randint 0 (width w' - 1) (gen (2 * i)%nat);
           cy ← randint 0 (height w' - 1) (gen (2 * i + 1)%nat);
           Some (mkWorld (width w') (height w')
                   ({[ (cx, cy) ]} ∪ food_locations w')))
        (Some w) (seq 0 8).

(** [World.__init__(width, height)]. *)
Definition World_init (width height : Z) (gen : nat → Z) : option World :=
  spawn_initial_food gen (mkWorld width height ∅).

(** ** Game: commands and the session loop *)

(** [class Game]; [self.world], [self.herald] and the console are the
    [session]. *)
Record Game := mkGame {
  running : bool;
  auto_mode : bool;
  step_mode : bool;
  tick_count : Z;
  session : Store
}.

Definition set_running (v : bool) (g : Game) : Game :=
  mkGame v (auto_mode g) (step_mode g) (tick_count g) (session g).
Definition set_auto_mode (v : bool) (g : Game) : Game :=
  mkGame (running g) v (step_mode g) (tick_count g) (session g).
Definition set_step_mode (v : bool) (g : Game) : Game :=
  mkGame (running g) (auto_mode g) v (tick_count g) (session g).
Definition set_tick_count (v : Z) (g : Game) : Game :=
  mkGame (running g) (auto_mode g) (step_mode g) v (session g).
Definition set_session (v : Store) (g : Game) : Game :=
  mkGame (running g) (auto_mode g) (step_mode g) (tick_count g) v.

(** A method of the actor or a print, run on the game's session. *)
Definition on_session {A} (m : M A) (g : Game) : Game :=
  set_session (exec m (session g)) g.

(** The newline character. *)
Definition nl : string := String (Ascii.ascii_of_nat 10) "".

(** [s * n] on strings. *)
Fixpoint str_repeat (s : string) (n : nat) : string :=
  match n with
  | O => ""
  | S n' => s +:+ str_repeat s n'
  end.

(** [str] of a pair of integers. *)
Definition str_pair (p : Z * Z) : string :=
  "(" +:+ pretty p.1 +:+ ", " +:+ pretty p.2 +:+ ")".

(** [Game.reset_world]: a new 10 by 10 world and a new actor at (5,5). *)
Definition reset_world (gen : nat → Z) (show_message : bool) (g : Game)
    : option Game :=
  w ← World_init 10 10 gen;
  let g1 := set_session (mkStore w (Herald_init 5 5) (stdout (session g))) g in
  let g2 := set_auto_mode false (set_tick_count 0 g1) in
  Some (if show_message
        then on_session (print "â†’ World reset! Herald lives again!") g2
        else g2).

(** [Game.__init__], whose last step is [reset_world(show_message=False)]. *)
Definition Game_init (gen : nat → Z) : option Game :=
  w ← World_init 10 10 gen;
  Some (mkGame true false false 0 (mkStore w (Herald_init 5 5) [])).

(** The single element of the list [commands] of [show_help]: the eight
    adjacent string literals have no comma between them. *)
Definition help_text : string :=
  "  move <direction>  - Move north/south/east/west"
  +:+ "  eat               - Eat food if present"
  +:+ "  wait              - Do nothing this turn"
  +:+ "  status            - Show Herald's current state"
  +:+ "  auto              - Let Herald roam on his own"
  +:+ "  stop              - Stop auto mode"
  +:+ "  help              - Show this help"
  +:+ "  quit              - Exit game".

Definition show_help : M () :=
  print (nl +:+ "COMMANDS:");;
  print ("    " +:+ help_text);;
  print "".

(** [actions_taken[-5:]]. *)
Definition last_five (l : list Entry) : list Entry := drop (length l - 5) l.

(** A [for] loop of prints. *)
Fixpoint print_all (lines : list string) : M () :=
  match lines with
  | [] => mret tt
  | line :: rest => print line;; print_all rest
  end.

Definition show_detailed_status : M () :=
  status ← get_status;
  print (nl +:+ "--- HERALD'S STATE ---");;
  print ("Status: " +:+ s_status status);;
  print ("Location: " +:+ str_pair (s_location status));;
  print ("Hunger: " +:+ pretty (s_hunger status) +:+ "/100 ("
           +:+ s_hunger_desc status +:+ ")");;
  print ("Food at location: " +:+ str_bool (s_sees_food status));;
  print (nl +:+ "Recent actions:");;
  self ← get_self;
  print_all ((λ action, "  [" +:+ e_timestamp action +:+ "] " +:+ e_description action)
               <$> last_five (actions_taken self));;
  print "".

(** [Game.process_command] on [parts], the value of
    [command.lower().strip().split()]. *)
Definition process_command (now : string) (gen : nat → Z) (parts : list string)
    (g : Game) : option Game :=
  match parts with
  | [] => Some g
  | cmd :: args =>
      if String.eqb cmd "move" then
        match args with
        | [] => Some (on_session (print "Usage: move <north/south/east/west>") g)
        | direction :: _ =>
            Some (on_session
                    (r ← move now direction;
                     print ("â†’ " +:+ r.2);;
                     self ← get_self;
                     w ← get_world;
                     if r.1 && has_food_at w (x self) (y self)
                     then print "â†’ Herald sees food here!"
                     else mret tt) g)
        end
      else if String.eqb cmd "eat" then
        Some (on_session (r ← eat now; print ("â†’ " +:+ r.2)) g)
      else if String.eqb cmd "wait" then
        Some (on_session (log_action now "WAIT" "Herald waited";;
                          print "â†’ Herald does nothing this turn") g)
      else if String.eqb cmd "status" then
        Some (on_session show_detailed_status g)
      else if String.eqb cmd "auto" then
        Some (on_session
                (print "â†’ AUTO MODE: Herald will decide on his own";;
                 print "  (Type 'stop' to take back control)")
                (set_auto_mode true g))
      else if String.eqb cmd "step" then
        Some (on_session
                (print "â†’ STEP MODE: Herald will move one tick at a time";;
                 print "  Press Enter to advance, or 'stop' to exit step mode")
                (set_step_mode true g))
      else if String.eqb cmd "stop" then
        Some (on_session (print "â†’ Manual control resumed")
                (set_step_mode false (set_auto_mode false g)))
      else if String.eqb cmd "reset" then
        reset_world gen true g
      else if String.eqb cmd "help" then
        Some (on_session show_help g)
      else if String.eqb cmd "quit" then
        Some (on_session (print "â†’ Goodbye!") (set_running false g))
      else
        Some (on_session (print ("Unknown command: " +:+ cmd);;
                          print "Type 'help' for commands") g)
  end.

(** One row of the grid of [draw_world]: the actor hides the food under it. *)
Definition grid_row (s : Store) (gy : Z) : string :=
  foldl (λ row gx,
           row +:+ (if (x (herald s) =? gx) && (y (herald s) =? gy) then " H "
                    else if has_food_at (world s) gx gy then " F "
                    else " . "))
        "" (range 0 (width (world s))).

Definition get_store : M Store := λ s, (s, s).

(** [Game.draw_world]; [os.system('clear')] runs another program and is no
    output of this one.  The first line is no f-string in the source, so its
    braces are printed as they stand. *)
Definition draw_world (g : Game) : Game :=
  on_session
    (print (nl +:+ "COMMANDS: {self.get_command_summary()}");;
     print (nl +:+ str_repeat "=" 70);;
     print ("TICK " +:+ pretty (tick_count g) +:+ " | Herald's World");;
     print (str_repeat "=" 70);;
     s ← get_store;
     print_all (grid_row s <$> range 0 (height (world s)));;
     print "";;
     status ← get_status;
     print ("Status: " +:+ s_status status);;
     print ("Location: " +:+ str_pair (s_location status));;
     print ("Hunger: " +:+ pretty (s_hunger status) +:+ "/100 ("
              +:+ s_hunger_desc status +:+ ")");;
     print ("Food here: " +:+ (if s_sees_food status then "YES" else "NO"));;
     print "") g.

(** [list.sort(key=lambda f: f[2])] is a stable sort: an entry goes behind
    the entries of the same distance that came before it. *)
Fixpoint insert_by_distance (f : Z * Z * Z) (l : list (Z * Z * Z))
    : list (Z * Z * Z) :=
  match l with
  | [] => [f]
  | g :: rest =>
      if f.2 <? g.2 then f :: g :: rest else g :: insert_by_distance f rest
  end.

Definition sort_by_distance (l : list (Z * Z * Z)) : list (Z * Z * Z) :=
  foldl (λ sorted f, insert_by_distance f sorted) [] l.

(** The list [food_list] of [show_vision_debug] before it is sorted. *)
Definition food_list (s : Store) : list (Z * Z * Z) :=
  gx ← range 0 (width (world s));
  gy ← range 0 (height (world s));
  if has_food_at (world s) gx gy
  then [(gx, gy, Z.abs (gx - x (herald s)) + Z.abs (gy - y (herald s)))]
  else [].

Definition vision_line (f : Z * Z * Z) : string :=
  "    Food at (" +:+ pretty f.1.1 +:+ ", " +:+ pretty f.1.2
    +:+ ") - Distance: " +:+ pretty f.2 +:+ " squares - "
    +:+ (if f.2 <=? 4 then "âœ“ VISIBLE" else "x out of range").

Definition show_vision_debug : M () :=
  self ← get_self;
  print (nl +:+ "--- HERALD's VISION DEBUG ---");;
  print ("Herald is at : (" +:+ pretty (x self) +:+ ", " +:+ pretty (y self) +:+ ")");;
  print "Vision rang: 4 squares";;
  print (nl +:+ "All food on map:");;
  s ← get_store;
  print_all (vision_line <$> sort_by_distance (food_list s));;
  nearest ← look_around 4;
  match nearest with
  | Some (cx, cy) =>
      print (nl +:+ "Herald's look_around() found: (" +:+ pretty cx +:+ ", "
               +:+ pretty cy +:+ ")")
  | None => print (nl +:+ "Herald's look_around() found: NOTHING")
  end;;
  print "".

(** What one turn of [Game.run] reads from outside: the clock, the random
    module, and the keyboard. *)
Record TurnInput := mkTurnInput {
  in_now : string;
  in_tick_now : string;
  in_rnd : Random;
  in_stop_key : bool;
  in_step_command : string;
  in_parts : list string;
  in_gen : nat → Z;
  in_choice : string;
  in_replay_gen : nat → Z
}.

(** The first half of the body of the [while] loop of [Game.run], after
    [draw_world]: the action of the turn.  [in_stop_key] is the result of
    [check_for_stop_command()], [in_step_command] the value of
    [input(...).strip().lower()] in step mode and [in_parts] the split command
    line of manual mode.  The prompt of an [input] goes to the console. *)
Definition turn_action (i : TurnInput) (g : Game) : option Game :=
  if auto_mode g then
    let g := on_session
               (print "[AUTO MODE - Herald deciding...(press x + Enter to stop)]") g in
    if in_stop_key i then
      Some (on_session (print "â†’ Manual control resumed") (set_auto_mode false g))
    else Some (on_session (herald_auto_decide (in_rnd i) (in_now i)) g)
  else if step_mode g then
    let g := on_session
               (print (nl +:+ "[STEP MODE - Press Enter to advance, 'stop' to exit]");;
                show_vision_debug;;
                print ">>> ") g in
    if String.eqb (in_step_command i) "stop" then
      Some (on_session (print "â†’ Manual control resumed") (set_step_mode false g))
    else Some (on_session (herald_auto_decide (in_rnd i) (in_now i)) g)
  else
    process_command (in_now i) (in_gen i) (in_parts i)
      (on_session (print "Your command (or 'help'): ") g).

(** The second half of the body: the end of the turn.  Hunger grows, the
    turn is counted, and a death is announced; [in_choice] is the answer
    [input(...).lower().strip()].  On [yes] the world is reset and the loop
    continues, on any other answer it is left, with the actor dead. *)
Definition turn_end (i : TurnInput) (g : Game) : option Game :=
  let g := on_session (tick (in_tick_now i)) g in
  let g := set_tick_count (tick_count g + 1) g in
  if negb (alive (herald (session g))) then
    let g := draw_world g in
    let g := on_session
               (print (nl +:+ "ðŸ’€ HERALD HAS DIED OF STARVATION ðŸ’€");;
                print ("He survived " +:+ pretty (tick_count g) +:+ " ticks.");;
                print (nl +:+ "Play again? (yes/no): ")) g in
    if String.eqb (in_choice i) "yes" || String.eqb (in_choice i) "y;" then
      reset_world (in_replay_gen i) true g
    else Some g
  else Some g.

(** The body of the [while] loop of [Game.run]. *)
Definition turn (i : TurnInput) (g : Game) : option Game :=
  g ← turn_action i (draw_world g);
  turn_end i g.

(** The [while self.running and self.herald.alive] loop on the inputs of the
    turns, then the last print of [run].  When the inputs end first, the
    result is the game at the head of the loop. *)
Fixpoint loop (inputs : list TurnInput) (g : Game) : option Game :=
  if running g && alive (herald (session g)) then
    match inputs with
    | [] => Some g
    | i :: rest => g' ← turn i g; loop rest g'
    end
  else Some (on_session (print (nl +:+ "Game Over!")) g).

(** [Game.run]. *)
Definition Game_run (inputs : list TurnInput) (g : Game) : option Game :=
  loop inputs
    (on_session
       (print (nl +:+ str_repeat "=" 40);;
        print "  HERALD v0.1 - You Are The LLM";;
        print (str_repeat "=" 40);;
        print (nl +:+ "You control Herald, an NPC who gets hungry.");;
        print "Type 'help' for commands, 'auto' to watch him roam.";;
        show_help) g).

(** ** Vocabulary of the session loop *)

(** A computation that touches neither the actor nor the world. *)
Definition silent {A} (m : M A) : Prop :=
  ∀ s, herald (exec m s) = herald s ∧ world (exec m s) = world s.

(** What an action of a turn (anything but [tick]) does to the store. *)
Record acts (s s' : Store) : Prop := mkActs {
  act_evolves : evolves s s';
  act_healthy : healthy s → healthy s';
  act_hunger :
    0 ≤ hunger (herald s) → 0 ≤ hunger (herald s') ≤ hunger (herald s);
  act_alive : alive (herald s') = alive (herald s)
}.

Definition acting {A} (m : M A) : Prop := ∀ s, acts s (exec m s).

(** The state of a game the session loop maintains. *)
Record game_ok (g : Game) : Prop := mkGameOk {
  ok_bounds : in_bounds (session g);
  ok_width : width (world (session g)) = 10;
  ok_height : height (world (session g)) = 10;
  ok_food :
    ∀ c, c ∈ food_locations (world (session g)) →
         is_valid_position (world (session g)) c.1 c.2 = true;
  ok_food_size : (size (food_locations (world (session g))) ≤ 8)%nat;
  ok_healthy : healthy (session g);
  ok_history : (length (actions_taken (herald (session g))) ≤ 20)%nat;
  ok_count : hunger (herald (session g)) ≤ 5 * tick_count g;
  ok_dead :
    alive (herald (session g)) = false → hunger (herald (session g)) = 100
}.

(** A game at the head of a turn: in order, with a live actor. *)
Definition live_ok (g : Game) : Prop :=
  game_ok g ∧ alive (herald (session g)) = true.

(** ** Unfolding the monad *)

Ltac run_monad :=
  cbv [mbind M_bind mret M_ret fmap M_fmap get_self get_world modify_self
       modify_world print get_status exec eval];
  cbv [world herald stdout x y hunger hunger_rate alive actions_taken
       set_x set_y set_hunger set_alive set_actions_taken fst snd].

Ltac case_move :=
  match goal with
  | |- context [move ?now ?d ?s] => destruct (move now d s); done
  end.

Ltac case_call :=
  match goal with
  | |- context [eat ?now ?s] => destruct (eat now s); done
  | |- context [move_toward ?now ?tx ?ty ?s] => destruct (move_toward now tx ty s); done
  | |- context [move ?now ?d ?s] => destruct (move now d s); done
  end.

Lemma exec_bind {A B} (m : M A) (f : A → M B) (s : Store) :
  exec (m ≫= f) s = exec (f (eval m s)) (exec m s).
Proof. run_monad. by destruct (m s). Qed.

Lemma eval_bind {A B} (m : M A) (f : A → M B) (s : Store) :
  eval (m ≫= f) s = eval (f (eval m s)) (exec m s).
Proof. run_monad. by destruct (m s). Qed.

Lemma log_action_eq now action_type description s :
  log_action now action_type description s
  = (tt, logged now action_type description s).
Proof.
  unfold log_action, logged, capped. run_monad. simpl.
  by destruct (20 <? _).
Qed.

Lemma move_eq now direction s :
  move now direction s =
  match unit_offset direction with
  | None => ((false, "Invalid direction"), s)
  | Some (ox, oy) =>
      let cx := x (herald s) + ox in
      let cy := y (herald s) + oy in
      if is_valid_position (world s) cx cy
      then ((true, "Moved " +:+ direction),
            logged now "MOVE" (move_description direction cx cy) (at_position cx cy s))
      else ((false, "Can't move there - out of bounds"), s)
  end.
Proof.
  destruct s as [w [hx hy hu hr al acts] out].
  unfold move, unit_offset, move_description.
  destruct (String.eqb direction "north");
    [|destruct (String.eqb direction "south");
      [|destruct (String.eqb direction "east");
        [|destruct (String.eqb direction "west")]]];
    run_monad; simpl; rewrite ?Z.add_0_r; try done;
    (destruct (is_valid_position _ _ _); simpl; [by rewrite log_action_eq | done]).
Qed.

Lemma tick_eq now s :
  tick now s =
  (tt, if alive (herald s) then
         let grown := hunger (herald s) + hunger_rate (herald s) in
         if 100 <=? grown then
           logged now "DIED" "Herald starved to death!"
             (mkStore (world s) (set_alive false (set_hunger 100 (herald s))) (stdout s))
         else mkStore (world s) (set_hunger grown (herald s)) (stdout s)
       else s).
Proof.
  destruct s as [w [hx hy hu hr al acts] out].
  unfold tick. run_monad. simpl.
  destruct al; [|done].
  destruct (100 <=? hu + hr); [|done].
  by rewrite log_action_eq.
Qed.

Lemma eat_eq now s :
  eat now s =
  let h := herald s in
  if has_food_at (world s) (x h) (y h) then
    let fed := Z.max 0 (hunger h - 50) in
    ((true, "Ate food! Yum!"),
     logged now "EAT" (eat_description (x h) (y h) fed)
       (mkStore (remove_food_at (world s) (x h) (y h)) (set_hunger fed h) (stdout s)))
  else ((false, "No food here to eat"), s).
Proof.
  destruct s as [w [hx hy hu hr al acts] out].
  unfold eat, eat_description. run_monad. simpl.
  destruct (has_food_at w hx hy); [|done].
  by rewrite log_action_eq.
Qed.

Lemma look_around_exec vision_range s : exec (look_around vision_range) s = s.
Proof. unfold look_around. by run_monad. Qed.

Lemma move_toward_eq now target_x target_y s :
  move_toward now target_x target_y s =
  let dx := target_x - x (herald s) in
  let dy := target_y - y (herald s) in
  let s' := printed (toward_note dx dy)
              (printed (toward_banner target_x target_y (herald s)) s) in
  match toward dx dy with
  | None => (Some (false, "Already here"), s')
  | Some direction => let r := move now direction s' in (Some r.1, r.2)
  end.
Proof.
  destruct s as [w [hx hy hu hr al acts] out].
  unfold move_toward, toward, toward_note, toward_banner, printed.
  run_monad.
  generalize (target_x - hx) (target_y - hy). intros dx dy.
  destruct ((dx =? 0) && (dy =? 0)) eqn:Hz; [done|].
  destruct (Z.abs dy <? Z.abs dx) eqn:Hh.
  { destruct (0 <? dx); case_move. }
  destruct (Z.abs dx <? Z.abs dy) eqn:Hv.
  { destruct (0 <? dy); case_move. }
  destruct (dx =? 0) eqn:Hx; cbn [negb].
  - destruct (dy =? 0) eqn:Hy; [lia|]. cbn [negb].
    destruct (0 <? dy); case_move.
  - destruct (0 <? dx); case_move.
Qed.

Lemma is_valid_position_spec w cx cy :
  is_valid_position w cx cy = true ↔ 0 ≤ cx < width w ∧ 0 ≤ cy < height w.
Proof. unfold is_valid_position. rewrite !andb_true_iff. lia. Qed.

Lemma has_food_at_spec w cx cy :
  has_food_at w cx cy = true ↔ (cx, cy) ∈ food_locations w.
Proof. unfold has_food_at. by rewrite bool_decide_eq_true. Qed.

Lemma evolves_refl s : evolves s s.
Proof. by split. Qed.

Lemma evolves_trans s1 s2 s3 : evolves s1 s2 → evolves s2 s3 → evolves s1 s3.
Proof.
  intros [] []. split; try congruence; try (by etrans); auto.
  intros Hr Hh. apply ev_hunger1; [congruence | auto].
Qed.

Lemma length_capped (l : list Entry) (entry : Entry) :
  (length l ≤ 20)%nat → (length (capped (l ++ [entry])) ≤ 20)%nat.
Proof.
  intros Hl. unfold capped. rewrite length_app. cbn [length].
  destruct (Z.ltb_spec 20 (Z.of_nat (length l + 1))) as [Hover|Hfits].
  - destruct l as [|e l]; simpl in *; [lia|]. rewrite length_app. simpl. lia.
  - rewrite length_app. simpl. lia.
Qed.

Lemma evolves_logged now action_type description s :
  evolves s (logged now action_type description s).
Proof. split; try done. apply length_capped. Qed.

Lemma evolves_printed line s : evolves s (printed line s).
Proof. by split. Qed.

Lemma evolves_move now direction s : evolves s (exec (move now direction) s).
Proof.
  unfold exec. rewrite move_eq.
  destruct (unit_offset direction) as [[ox oy]|]; [|apply evolves_refl].
  cbn zeta. destruct (is_valid_position _ _ _) eqn:Hv; [|apply evolves_refl].
  apply is_valid_position_spec in Hv.
  eapply evolves_trans; [|apply evolves_logged].
  by split.
Qed.

Lemma evolves_eat now s : evolves s (exec (eat now) s).
Proof.
  unfold exec. rewrite eat_eq. cbn zeta.
  destruct (has_food_at _ _ _); [|apply evolves_refl].
  eapply evolves_trans; [|apply evolves_logged].
  split; simpl; try done; [apply subseteq_difference_l; done | lia].
Qed.

Lemma evolves_tick now s : evolves s (exec (tick now) s).
Proof.
  unfold exec. rewrite tick_eq. simpl.
  destruct (alive (herald s)) eqn:Ha; [|apply evolves_refl].
  destruct (100 <=? _) eqn:Hd.
  - eapply evolves_trans; [|apply evolves_logged].
    by split.
  - apply Z.leb_gt in Hd. split; simpl; try done; try congruence. lia.
Qed.

Lemma evolves_wait now s : evolves s (exec (wait now) s).
Proof. unfold exec, wait. rewrite log_action_eq. apply evolves_logged. Qed.

Lemma evolves_move_toward now target_x target_y s :
  evolves s (exec (move_toward now target_x target_y) s).
Proof.
  unfold exec. rewrite move_toward_eq. cbn zeta.
  set (s' := printed _ (printed _ s)).
  assert (evolves s s') as Hs'.
  { eapply evolves_trans; apply evolves_printed. }
  destruct (toward _ _); [|done].
  eapply evolves_trans; [done|]. apply evolves_move.
Qed.

(** The store after [herald_auto_decide]: two printed lines, then the
    action of the first rule that fires. *)
Lemma herald_auto_decide_exec rnd now s :
  exec (herald_auto_decide rnd now) s =
  let h := herald s in
  let s' := printed (decide_note rnd s) (printed (decide_banner s) s) in
  if has_food_at (world s) (x h) (y h) && (30 <? hunger h) then exec (eat now) s'
  else if 40 <? hunger h then
    match eval (look_around 2) s with
    | Some (food_x, food_y) => exec (move_toward now food_x food_y) s'
    | None => exec (move now (explore_direction rnd)) s'
    end
  else if random_below_0_7 rnd then exec (move now (explore_direction rnd)) s'
  else logged now "WAIT" "Herald rested" s'.
Proof.
  destruct s as [w [hx hy hu hr al acts] out].
  unfold herald_auto_decide, decide_note, look_around, decide_banner, printed,
    explore_direction.
  run_monad. cbv [s_sees_food s_hunger].
  destruct (has_food_at w hx hy && (30 <? hu)); [case_call|].
  destruct (40 <? hu).
  { match goal with
    | |- context [foldl ?f ?a ?l] =>
        destruct (foldl f a l) as [[[food_x food_y]|] nearest]
    end; case_call. }
  destruct (random_below_0_7 rnd); [case_call|].
  by rewrite log_action_eq.
Qed.

Lemma evolves_herald_auto_decide rnd now s :
  evolves s (exec (herald_auto_decide rnd now) s).
Proof.
  rewrite herald_auto_decide_exec. cbn zeta.
  set (s' := printed _ (printed _ s)).
  assert (evolves s s') as Hs'.
  { eapply evolves_trans; apply evolves_printed. }
  destruct (_ && _).
  { eapply evolves_trans; [done | apply evolves_eat]. }
  destruct (40 <? _).
  { destruct (eval _ s) as [[food_x food_y]|];
      (eapply evolves_trans; [done|]);
      [apply evolves_move_toward | apply evolves_move]. }
  destruct (random_below_0_7 rnd);
    (eapply evolves_trans; [done|]);
    [apply evolves_move | apply evolves_logged].
Qed.

Lemma exec_then {A} (m : M A) (s : Store) : exec (m ≫= λ _, mret tt) s = exec m s.
Proof. run_monad. by destruct (m s). Qed.

Lemma evolves_call now c s : evolves s (exec (call now c) s).
Proof.
  destruct c; unfold call; rewrite ?exec_then.
  - apply evolves_move.
  - apply evolves_eat.
  - apply evolves_tick.
  - apply evolves_wait.
  - rewrite look_around_exec. apply evolves_refl.
  - apply evolves_move_toward.
  - apply evolves_herald_auto_decide.
Qed.

Lemma exec_run_cons now c calls s :
  exec (run ((now, c) :: calls)) s = exec (run calls) (exec (call now c) s).
Proof. simpl run. by rewrite exec_bind. Qed.

Lemma evolves_run calls s : evolves s (exec (run calls) s).
Proof.
  revert s. induction calls as [|[now c] calls IH]; intros s.
  - apply evolves_refl.
  - rewrite exec_run_cons. eapply evolves_trans; [apply evolves_call | apply IH].
Qed.

(** ** The scan of [look_around] *)

Lemma foldl_nested {A} (f : Z → Z → A → A) (xs ys : list Z) (a : A) :
  foldl (λ acc dx, foldl (λ acc dy, f dx dy acc) acc ys) a xs
  = foldl (λ acc d, f d.1 d.2 acc) a (dx ← xs; (λ dy, (dx, dy)) <$> ys).
Proof.
  revert a. induction xs as [|dx xs IH]; intros a; [done|].
  rewrite bind_cons, foldl_app, foldl_fmap. simpl. apply IH.
Qed.

Lemma look_around_eval vision_range s :
  eval (look_around vision_range) s
  = (foldl (λ acc d, look_at (world s) (herald s) d.1 d.2 acc) (None, Inf)
           (scan_order vision_range)).1.
Proof. unfold look_around, scan_order. cbv [eval mbind M_bind mret M_ret get_self get_world]. simpl. by rewrite foldl_nested. Qed.

Lemma seqZ_sorted m n : StronglySorted Z.lt (seqZ m n).
Proof.
  destruct (decide (0 ≤ n)) as [Hn|Hn]; [|rewrite seqZ_nil by lia; constructor].
  rewrite <-(Z2Nat.id n) by done. generalize (Z.to_nat n). clear. intros k.
  revert m. induction k as [|k IH]; intros m.
  - rewrite seqZ_nil by lia. constructor.
  - rewrite seqZ_cons by lia. constructor.
    + replace (Z.pred (Z.of_nat (S k))) with (Z.of_nat k) by lia. apply IH.
    + apply Forall_seqZ. lia.
Qed.

Lemma nested_sorted (xs ys : list Z) :
  StronglySorted Z.lt xs → StronglySorted Z.lt ys →
  StronglySorted scan_before (dx ← xs; (λ dy, (dx, dy)) <$> ys).
Proof.
  intros Hxs Hys. induction Hxs as [|dx xs Hxs IH Hdx]; [constructor|].
  rewrite bind_cons. apply StronglySorted_app_2.
  - intros a b [dy [-> _]]%list_elem_of_fmap
      [dx' [[dy' [-> _]]%list_elem_of_fmap Hdx']]%list_elem_of_bind.
    left. simpl. rewrite Forall_forall in Hdx. by apply Hdx.
  - eapply StronglySorted_fmap; [|done]. intros a b Hab. right. by simpl.
  - done.
Qed.

Lemma scan_order_sorted vision_range :
  StronglySorted scan_before (scan_order vision_range).
Proof. apply nested_sorted; apply seqZ_sorted. Qed.

Lemma elem_of_scan_order vision_range d :
  d ∈ scan_order vision_range
  ↔ - vision_range ≤ d.1 ≤ vision_range ∧ - vision_range ≤ d.2 ≤ vision_range.
Proof.
  unfold scan_order, range. cbn zeta. rewrite list_elem_of_bind. split.
  - intros [dx [[dy [-> Hdy]]%list_elem_of_fmap Hdx]].
    apply elem_of_seqZ in Hdx, Hdy. simpl. lia.
  - intros [Hdx Hdy]. exists d.1. split.
    + apply list_elem_of_fmap. exists d.2. split; [by destruct d|].
      apply elem_of_seqZ. lia.
    + apply elem_of_seqZ. lia.
Qed.

Lemma look_at_eq s d acc :
  look_at (world s) (herald s) d.1 d.2 acc =
  if food_in_view s d then
    if distance_lt (manhattan d) acc.2
    then (Some (x (herald s) + d.1, y (herald s) + d.2), Fin (manhattan d))
    else acc
  else acc.
Proof.
  unfold look_at, food_in_view, manhattan.
  destruct (is_valid_position _ _ _); [|done].
  by destruct (has_food_at _ _ _).
Qed.

Lemma nearest_of_step s seen acc d :
  (∀ d', d' ∈ seen → scan_before d' d) →
  nearest_of s seen acc →
  nearest_of s (seen ++ [d]) (look_at (world s) (herald s) d.1 d.2 acc).
Proof.
  intros Hlast Hacc. rewrite look_at_eq.
  destruct (food_in_view s d) eqn:Hd.
  - destruct acc as [[c|] [|n]]; unfold nearest_of in Hacc; try done.
    + destruct Hacc as (d0 & Hd0 & -> & -> & Hf0 & Hmin).
      cbn [snd distance_lt].
      destruct (Z.ltb_spec (manhattan d) (manhattan d0)) as [Hlt|Hge];
        unfold nearest_of.
      * exists d. split; [apply elem_of_app; right; by apply list_elem_of_singleton|].
        repeat split; auto.
        intros d' [Hd'|Hd']%elem_of_app Hf'.
        -- destruct (Hmin d' Hd' Hf') as [?|[? _]]; left; lia.
        -- apply list_elem_of_singleton in Hd'. subst d'. right. auto.
      * exists d0. split; [apply elem_of_app; by left|].
        repeat split; auto.
        intros d' [Hd'|Hd']%elem_of_app Hf'; [by apply Hmin|].
        apply list_elem_of_singleton in Hd'. subst d'.
        destruct (decide (manhattan d0 = manhattan d)); [right|left; lia].
        split; [done|]. right. by apply Hlast.
    + cbn [snd distance_lt]. unfold nearest_of.
      exists d. split; [apply elem_of_app; right; by apply list_elem_of_singleton|].
      repeat split; auto.
      intros d' [Hd'|Hd']%elem_of_app Hf'.
      * rewrite Hacc in Hf' by done. done.
      * apply list_elem_of_singleton in Hd'. subst d'. right. auto.
  - destruct acc as [[c|] [|n]]; unfold nearest_of in *; try done.
    + destruct Hacc as (d0 & Hd0 & -> & -> & Hf0 & Hmin).
      exists d0. split; [apply elem_of_app; by left|].
      repeat split; auto.
      intros d' [Hd'|Hd']%elem_of_app Hf'; [by apply Hmin|].
      apply list_elem_of_singleton in Hd'. subst d'. congruence.
    + intros d' [Hd'|Hd']%elem_of_app; [by apply Hacc|].
      apply list_elem_of_singleton in Hd'. by subst d'.
Qed.

Lemma nearest_of_foldl s l :
  ∀ seen acc,
    StronglySorted scan_before (seen ++ l) →
    nearest_of s seen acc →
    nearest_of s (seen ++ l)
      (foldl (λ acc d, look_at (world s) (herald s) d.1 d.2 acc) acc l).
Proof.
  induction l as [|d l IH]; intros seen acc Hsorted Hacc.
  - by rewrite app_nil_r.
  - simpl. rewrite (assoc_L (++) seen [d] l : seen ++ d :: l = (seen ++ [d]) ++ l) in *.
    apply IH; [done|]. apply nearest_of_step; [|done].
    intros d' Hd'. apply StronglySorted_app_1_l in Hsorted.
    eapply StronglySorted_app_1_elem_of; [done..|]. by apply list_elem_of_singleton.
Qed.

Lemma look_around_nearest vision_range s :
  ∃ nearest,
    nearest_of s (scan_order vision_range) (eval (look_around vision_range) s, nearest).
Proof.
  rewrite look_around_eval.
  pose proof (nearest_of_foldl s (scan_order vision_range) [] (None, Inf)) as H.
  simpl in H. destruct (foldl _ _ _) as [c n]. exists n. apply H.
  - apply scan_order_sorted.
  - intros d Hd. by apply elem_of_nil in Hd.
Qed.

(** ** The actor state machine *)

(** C10: [Herald.__init__] performs no bounds validation.  For every world
    and every pair of integers, the constructed actor is alive, has hunger 0,
    an empty history and exactly the given position; it is inside the grid
    exactly when the given start coordinate is, so an out-of-bounds start
    yields a live actor outside the grid. *)
Theorem init_no_bounds_validation (w : World) (start_x start_y : Z) :
  let s := new_session w start_x start_y in
  alive (herald s) = true
  ∧ hunger (herald s) = 0
  ∧ actions_taken (herald s) = []
  ∧ (x (herald s), y (herald s)) = (start_x, start_y)
  ∧ world s = w
  ∧ (in_bounds s ↔ is_valid_position w start_x start_y = true).
Proof.
  intros s. do 5 (split; [done|]).
  symmetry. apply is_valid_position_spec.
Qed.

(** C3: bounds invariant.  From an actor constructed at an in-bounds start
    position, after any sequence of calls (move, eat, tick, wait, and also
    look_around, move_toward and the autonomous policy), the position
    satisfies 0 <= x < width and 0 <= y < height whenever the actor is
    alive. *)
Theorem bounds_invariant (w : World) (start_x start_y : Z)
    (calls : list (string * Call)) :
  is_valid_position w start_x start_y = true →
  let s := exec (run calls) (new_session w start_x start_y) in
  alive (herald s) = true →
  0 ≤ x (herald s) < width w ∧ 0 ≤ y (herald s) < height w.
Proof.
  intros Hstart s _.
  destruct (evolves_run calls (new_session w start_x start_y)) as [Hw Hh _ _ Hb _ _ _].
  fold s in Hw, Hh, Hb. simpl in Hw, Hh. rewrite <-Hw, <-Hh. apply Hb.
  by apply is_valid_position_spec in Hstart.
Qed.

Lemma bounds_invariant_witness :
  let s := exec (run sample_calls) (new_session (w10 [(0, 0)]) 0 1) in
  0 ≤ x (herald s) < 10 ∧ 0 ≤ y (herald s) < 10.
Proof.
  apply (bounds_invariant (w10 [(0, 0)]) 0 1 sample_calls); reflexivity.
Defined.

(** C4: hunger clamp.  From an actor constructed with hunger 0, after any
    sequence of calls hunger lies in [0,100]; in such a state one more
    [tick] leaves it at most 100 and one more [eat] leaves it at least 0. *)
Theorem hunger_clamp (w : World) (start_x start_y : Z)
    (calls : list (string * Call)) :
  let s := exec (run calls) (new_session w start_x start_y) in
  0 ≤ hunger (herald s) ≤ 100
  ∧ (∀ now, hunger (herald (exec (tick now) s)) ≤ 100)
  ∧ (∀ now, 0 ≤ hunger (herald (exec (eat now) s))).
Proof.
  intros s.
  destruct (evolves_run calls (new_session w start_x start_y)) as [_ _ _ Hr _ Hh _ _].
  fold s in Hr, Hh. simpl in Hr, Hh. specialize (Hh eq_refl ltac:(lia)).
  split; [done|]. split; intros now.
  - apply (ev_hunger _ _ (evolves_tick now s)); done.
  - apply (ev_hunger _ _ (evolves_eat now s)); done.
Qed.

Lemma last_capped (l : list Entry) (entry : Entry) :
  last (capped (l ++ [entry])) = Some entry.
Proof.
  unfold capped. destruct (20 <? _) eqn:Hlen; [|apply last_snoc].
  destruct l as [|e l]; [done|]. simpl. apply last_snoc.
Qed.

Lemma unit_offset_other direction :
  direction ∉ ["north"; "south"; "east"; "west"] → unit_offset direction = None.
Proof.
  intros Hd. unfold unit_offset.
  repeat match goal with
         | |- context [String.eqb direction ?token] =>
             destruct (String.eqb_spec direction token) as [->|_];
             [exfalso; apply Hd; repeat constructor|]
         end.
  done.
Qed.

(** C5: [move].  When the unit-offset candidate (north = y-1, south = y+1,
    east = x+1, west = x-1) is outside the grid the call fails with the
    out-of-bounds message and the store is the one before the call; any
    other direction token fails with the invalid-direction message and
    changes nothing; on success the position is exactly the candidate, a
    MOVE record is the newest entry of the history (capped at 20 entries), and
    nothing else changes.  In particular north from (0,0) fails and the actor
    stays at (0,0). *)
Theorem move_spec (now direction : string) (s : Store) :
  let px := x (herald s) in
  let py := y (herald s) in
  (∀ cx cy,
     (direction, (cx, cy)) ∈ [("north", (px, py - 1)); ("south", (px, py + 1));
                               ("east", (px + 1, py)); ("west", (px - 1, py))] →
     if is_valid_position (world s) cx cy then
       ∃ entry,
         e_type entry = "MOVE"
         ∧ s_location (e_state entry) = (cx, cy)
         ∧ last (capped (actions_taken (herald s) ++ [entry])) = Some entry
         ∧ move now direction s
           = ((true, "Moved " +:+ direction),
              mkStore (world s)
                (mkHerald cx cy (hunger (herald s)) (hunger_rate (herald s))
                   (alive (herald s))
                   (capped (actions_taken (herald s) ++ [entry])))
                (stdout s))
     else move now direction s = ((false, "Can't move there - out of bounds"), s))
  ∧ (direction ∉ ["north"; "south"; "east"; "west"] →
     move now direction s = ((false, "Invalid direction"), s))
  ∧ (direction = "north" → px = 0 → py = 0 →
     move now direction s = ((false, "Can't move there - out of bounds"), s)).
Proof.
  intros px py. split; [|split].
  - intros cx cy Hin. rewrite move_eq.
    assert (unit_offset direction = Some (cx - px, cy - py)) as ->.
    { rewrite !elem_of_cons in Hin.
      destruct Hin as [Heq|[Heq|[Heq|[Heq|Heq]]]];
        [injection Heq as -> -> ->; unfold unit_offset; simpl; f_equal; f_equal; lia..
        |by apply elem_of_nil in Heq]. }
    cbn zeta. fold px py.
    replace (px + (cx - px)) with cx by lia. replace (py + (cy - py)) with cy by lia.
    destruct (is_valid_position (world s) cx cy); [|done].
    eexists. split; [|split; [|split; [apply last_capped|]]]; [| |reflexivity]; done.
  - intros Hd. by rewrite move_eq, unit_offset_other.
  - intros -> Hx Hy. rewrite move_eq. cbn. fold px py.
    replace (is_valid_position (world s) (px + 0) (py + -1)) with false; [done|].
    symmetry. apply not_true_iff_false. rewrite is_valid_position_spec. lia.
Qed.

Lemma move_spec_witness :
  move "12:00:00" "north" (new_session (w10 []) 0 0)
  = ((false, "Can't move there - out of bounds"), new_session (w10 []) 0 0)
  ∧ move "12:00:00" "up" (new_session (w10 []) 0 0)
    = ((false, "Invalid direction"), new_session (w10 []) 0 0)
  ∧ (move "12:00:00" "east" (new_session (w10 []) 0 0)).1 = (true, "Moved east").
Proof.
  pose proof (move_spec "12:00:00" "north" (new_session (w10 []) 0 0)) as Hnorth.
  pose proof (move_spec "12:00:00" "up" (new_session (w10 []) 0 0)) as Hup.
  pose proof (move_spec "12:00:00" "east" (new_session (w10 []) 0 0)) as Heast.
  cbn zeta in Hnorth, Hup, Heast.
  destruct Hnorth as (_ & _ & Hnorth), Hup as (_ & Hup & _), Heast as (Heast & _).
  split; [by apply Hnorth|]. split.
  - apply Hup. rewrite !not_elem_of_cons. repeat (split; [discriminate|]).
    apply not_elem_of_nil.
  - specialize (Heast 1 0). change (is_valid_position _ 1 0) with true in Heast.
    destruct Heast as (entry & _ & _ & _ & ->); [|done].
    do 2 apply list_elem_of_further. apply list_elem_of_here.
Defined.

Lemma has_food_at_false w cx cy :
  has_food_at w cx cy = false ↔ (cx, cy) ∉ food_locations w.
Proof. unfold has_food_at. by rewrite bool_decide_eq_false. Qed.

(** C6: [eat].  The call succeeds exactly when the world has food at the
    actor's position.  On success that food is removed, membership at the
    cell is false and stays false under every later sequence of calls, and
    hunger becomes max(0, hunger - 50), with an EAT record as newest history
    entry.  On failure the message is the no-food one and the store is
    unchanged, so a second [eat] returns the same failing result. *)
Theorem eat_spec (now : string) (s : Store) :
  let h := herald s in
  let here := has_food_at (world s) (x h) (y h) in
  (eval (eat now) s).1 = here
  ∧ (here = true →
     let s' := exec (eat now) s in
     eval (eat now) s = (true, "Ate food! Yum!")
     ∧ food_locations (world s') = food_locations (world s) ∖ {[ (x h, y h) ]}
     ∧ hunger (herald s') = Z.max 0 (hunger h - 50)
     ∧ (x (herald s'), y (herald s')) = (x h, y h)
     ∧ (∃ entry, e_type entry = "EAT"
                 ∧ last (actions_taken (herald s')) = Some entry)
     ∧ has_food_at (world s') (x h) (y h) = false
     ∧ (∀ calls, has_food_at (world (exec (run calls) s')) (x h) (y h) = false))
  ∧ (here = false →
     eat now s = ((false, "No food here to eat"), s)
     ∧ ∀ now', eat now' (exec (eat now) s) = eat now s).
Proof.
  intros h here. unfold eval, exec. rewrite eat_eq. cbn zeta. subst here h.
  destruct (has_food_at (world s) _ _) eqn:Hhere; (split; [done|]);
    (split; [intros Hyes|intros Hno]); try discriminate.
  - assert (has_food_at (remove_food_at (world s) (x (herald s)) (y (herald s)))
              (x (herald s)) (y (herald s)) = false) as Hgone.
    { apply has_food_at_false. simpl. rewrite elem_of_difference, elem_of_singleton.
      by intros [_ Hne]. }
    simpl. do 4 (split; [done|]). split; [|split; [done|]].
    + eexists. split; [|apply last_capped]. done.
    + intros calls. apply has_food_at_false. apply has_food_at_false in Hgone.
      intros Hin. apply Hgone.
      by apply (ev_food _ _ (evolves_run calls _)) in Hin.
  - split; [done|]. intros now'. simpl. rewrite !eat_eq. cbn zeta.
    by rewrite Hhere.
Qed.

Lemma eat_spec_witness :
  let s := new_session (w10 [(5, 5)]) 5 5 in
  (eval (eat "12:00:00") s = (true, "Ate food! Yum!")
   ∧ has_food_at (world (exec (eat "12:00:00") s)) 5 5 = false
   ∧ hunger (herald (exec (eat "12:00:00") s)) = 0)
  ∧ eat "12:00:01" (exec (eat "12:00:00") s)
    = ((false, "No food here to eat"), exec (eat "12:00:00") s).
Proof.
  intros s. split.
  - destruct (eat_spec "12:00:00" s) as (_ & Hyes & _).
    destruct (Hyes eq_refl) as (Hr & _ & Hh & _ & _ & Hf & _).
    split; [exact Hr|]. split; [exact Hf|exact Hh].
  - destruct (eat_spec "12:00:01" (exec (eat "12:00:00") s)) as (_ & _ & Hno).
    by destruct (Hno eq_refl) as [Hno' _].
Defined.

(** ** Life and death *)

Lemma alive_move now direction s :
  alive (herald (exec (move now direction) s)) = alive (herald s).
Proof.
  unfold exec. rewrite move_eq.
  destruct (unit_offset direction) as [[ox oy]|]; [|done].
  cbn zeta. by destruct (is_valid_position _ _ _).
Qed.

Lemma alive_eat now s : alive (herald (exec (eat now) s)) = alive (herald s).
Proof. unfold exec. rewrite eat_eq. cbn zeta. by destruct (has_food_at _ _ _). Qed.

Lemma alive_move_toward now target_x target_y s :
  alive (herald (exec (move_toward now target_x target_y) s)) = alive (herald s).
Proof.
  unfold exec. rewrite move_toward_eq. cbn zeta.
  destruct (toward _ _); [|done]. cbn [snd].
  match goal with |- context [(move ?n ?d ?s').2] => apply (alive_move n d s') end.
Qed.

Lemma alive_herald_auto_decide rnd now s :
  alive (herald (exec (herald_auto_decide rnd now) s)) = alive (herald s).
Proof.
  rewrite herald_auto_decide_exec. cbn zeta.
  destruct (_ && _); [by rewrite alive_eat|].
  destruct (40 <? _).
  { destruct (eval _ s) as [[food_x food_y]|];
      [by rewrite alive_move_toward | by rewrite alive_move]. }
  destruct (random_below_0_7 rnd); [by rewrite alive_move | done].
Qed.

Lemma exec_run_app calls1 calls2 s :
  exec (run (calls1 ++ calls2)) s = exec (run calls2) (exec (run calls1) s).
Proof.
  revert s. induction calls1 as [|[now c] calls1 IH]; intros s; [done|].
  rewrite <-app_comm_cons, !exec_run_cons. apply IH.
Qed.

Lemma reachable_rate s : reachable s → hunger_rate (herald s) = 5.
Proof.
  intros (w & start_x & start_y & calls & ->).
  by rewrite (ev_rate _ _ (evolves_run calls _)).
Qed.

(** Ticks that do not reach 100 only add to hunger. *)
Lemma ticks_below (nows : list string) (s : Store) :
  alive (herald s) = true →
  hunger_rate (herald s) = 5 →
  hunger (herald s) + 5 * Z.of_nat (length nows) < 100 →
  exec (run ((λ now, (now, CallTick)) <$> nows)) s
  = mkStore (world s)
      (set_hunger (hunger (herald s) + 5 * Z.of_nat (length nows)) (herald s))
      (stdout s).
Proof.
  revert s. induction nows as [|now nows IH]; intros s Ha Hr Hlt.
  - destruct s as [w [hx hy hu hr al acts] out]. simpl. unfold exec. simpl.
    by rewrite Z.add_0_r.
  - rewrite fmap_cons, exec_run_cons. cbn [call].
    change (length (now :: nows)) with (S (length nows)) in *.
    unfold exec at 2. rewrite tick_eq. rewrite Ha, Hr. cbn [snd].
    cbn zeta. destruct (Z.leb_spec 100 (hunger (herald s) + 5)) as [?|_]; [exfalso; lia|].
    rewrite IH; simpl; try done; [|lia].
    unfold set_hunger. cbn [x y hunger hunger_rate alive actions_taken herald world stdout].
    do 2 f_equal. lia.
Qed.

(** C8: [tick].  In every state with a live actor whose hunger rate is the
    constructor's 5, whatever its hunger, position, history and world,
    [tick] adds exactly 5 to hunger; when the sum reaches or exceeds 100,
    hunger becomes 100, alive becomes false and a DIED record is the newest
    history entry; otherwise nothing else changes.  Twenty ticks from a fresh
    actor give hunger 100, a dead actor and exactly one DIED record.  No call
    other than [tick] changes alive.  The rate is 5 in a fresh actor and no
    call changes it. *)
Theorem tick_spec :
  (∀ s now, alive (herald s) = true → hunger_rate (herald s) = 5 →
     let s' := exec (tick now) s in
     let grown := hunger (herald s) + 5 in
     world s' = world s
     ∧ (x (herald s'), y (herald s')) = (x (herald s), y (herald s))
     ∧ if 100 <=? grown then
         hunger (herald s') = 100
         ∧ alive (herald s') = false
         ∧ ∃ entry, e_type entry = "DIED"
                    ∧ actions_taken (herald s')
                      = capped (actions_taken (herald s) ++ [entry])
                    ∧ last (actions_taken (herald s')) = Some entry
       else
         hunger (herald s') = grown
         ∧ alive (herald s') = true
         ∧ actions_taken (herald s') = actions_taken (herald s))
  ∧ (∀ w start_x start_y nows, length nows = 20%nat →
       let s := exec (run ((λ now, (now, CallTick)) <$> nows))
                  (new_session w start_x start_y) in
       hunger (herald s) = 100
       ∧ alive (herald s) = false
       ∧ length (died_records (actions_taken (herald s))) = 1%nat)
  ∧ (∀ s now c, c ≠ CallTick →
       alive (herald (exec (call now c) s)) = alive (herald s))
  ∧ (∀ w start_x start_y, hunger_rate (herald (new_session w start_x start_y)) = 5)
  ∧ (∀ s now c,
       hunger_rate (herald (exec (call now c) s)) = hunger_rate (herald s)).
Proof.
  split; [|split; [|split; [|split]]];
    [| | |done|intros s now c; apply (ev_rate _ _ (evolves_call now c s))].
  - intros s now Ha Hrate. cbn zeta. unfold exec. rewrite tick_eq. cbn [snd].
    rewrite Ha, Hrate. cbn zeta.
    destruct (100 <=? hunger (herald s) + 5).
    + do 4 (split; [done|]). eexists. split; [|split; [done|apply last_capped]]. done.
    + done.
  - intros w start_x start_y nows Hlen. cbn zeta.
    destruct (nows) as [|now0 rest _] using rev_ind; [done|].
    rewrite length_app in Hlen. simpl in Hlen.
    rewrite fmap_app, exec_run_app, (ticks_below rest); [|done|done|simpl; lia].
    replace (length rest) with 19%nat by lia.
    rewrite fmap_cons, exec_run_cons. cbn [call fmap list_fmap run].
    unfold exec. rewrite tick_eq. by vm_compute.
  - intros s now c Hc. destruct c; unfold call; rewrite ?exec_then.
    + apply alive_move.
    + apply alive_eat.
    + done.
    + unfold exec, wait. by rewrite log_action_eq.
    + by rewrite look_around_exec.
    + apply alive_move_toward.
    + apply alive_herald_auto_decide.
Qed.

Lemma tick_spec_witness :
  (let s := new_session (w10 []) 5 5 in
   hunger (herald (exec (tick "12:00:00") s)) = 5)
  ∧ (let s := mkStore (w10 []) (mkHerald 5 5 97 5 true []) [] in
     let s' := exec (tick "12:00:00") s in
     hunger (herald s') = 100 ∧ alive (herald s') = false
     ∧ length (died_records (actions_taken (herald s'))) = 1%nat)
  ∧ (let s := exec (run (ticks 20)) (new_session (w10 []) 5 5) in
     hunger (herald s) = 100 ∧ alive (herald s) = false
     ∧ length (died_records (actions_taken (herald s))) = 1%nat)
  ∧ alive (herald (exec (call "12:00:00" CallEat) (new_session (w10 [(5, 5)]) 5 5)))
    = true.
Proof.
  destruct tick_spec as (Hone & Htwenty & Hother & _ & _).
  split; [|split; [|split]].
  - destruct (Hone (new_session (w10 []) 5 5) "12:00:00" eq_refl eq_refl)
      as (_ & _ & Hgrow).
    exact (proj1 Hgrow).
  - destruct (Hone (mkStore (w10 []) (mkHerald 5 5 97 5 true []) []) "12:00:00"
                eq_refl eq_refl) as (_ & _ & Hclamp & Hdead & _).
    split; [exact Hclamp|split; [exact Hdead|reflexivity]].
  - exact (Htwenty (w10 []) 5 5 (replicate 20 "12:00:00") eq_refl).
  - apply (Hother (new_session (w10 [(5, 5)]) 5 5) "12:00:00" CallEat). discriminate.
Defined.

(** C2, as stated, fails: the actor that died through [tick] at (5,5) still
    moves east to (6,5), and eating there takes its hunger from 100 to 50
    and removes the food. *)
Lemma dead_actor_moves_and_eats :
  let s1 := exec (move "12:01:00" "east") starved in
  let s2 := exec (eat "12:01:01") s1 in
  alive (herald starved) = false
  ∧ (x (herald starved), y (herald starved)) = (5, 5)
  ∧ (x (herald s1), y (herald s1)) = (6, 5)
  ∧ hunger (herald s1) = 100
  ∧ has_food_at (world s1) 6 5 = true
  ∧ hunger (herald s2) = 50
  ∧ has_food_at (world s2) 6 5 = false.
Proof. vm_compute. repeat split. Qed.

(** C2, amended: once alive is false, [tick] changes nothing at all, the
    wait action changes neither position, hunger nor food, and alive stays
    false under every sequence of calls; [move] and [eat] do not test alive:
    they return the same result and leave the same position, hunger and food
    as on the same store with a live actor. *)
Theorem dead_actor_calls (s : Store) (now : string) :
  alive (herald s) = false →
  exec (tick now) s = s
  ∧ core (exec (wait now) s) = core s
  ∧ (∀ calls, alive (herald (exec (run calls) s)) = false)
  ∧ (∀ direction,
       eval (move now direction) s = eval (move now direction) (revived s)
       ∧ core (exec (move now direction) s)
         = core (exec (move now direction) (revived s)))
  ∧ eval (eat now) s = eval (eat now) (revived s)
  ∧ core (exec (eat now) s) = core (exec (eat now) (revived s)).
Proof.
  intros Hdead. split; [|split; [|split; [|split]]].
  - unfold exec. rewrite tick_eq. by rewrite Hdead.
  - unfold exec, wait. by rewrite log_action_eq.
  - intros calls. by apply (ev_dead _ _ (evolves_run calls s)).
  - intros direction. unfold eval, exec. rewrite !move_eq.
    destruct (unit_offset direction) as [[ox oy]|]; [|done].
    cbn zeta. simpl. by destruct (is_valid_position _ _ _).
  - unfold eval, exec. rewrite !eat_eq. cbn zeta. simpl.
    by destruct (has_food_at _ _ _).
Qed.

Lemma dead_actor_calls_witness :
  exec (tick "12:01:00") starved = starved
  ∧ core (exec (wait "12:01:00") starved) = core starved.
Proof.
  destruct (dead_actor_calls starved "12:01:00" eq_refl) as (Htick & Hwait & _).
  split; [exact Htick | exact Hwait].
Defined.

(** ** Perception and greedy stepping *)

(** C1 at a concrete input: on the 10 by 10 grid with the actor at (5,5) and
    food only at (9,9), [look_around] with vision range 4 returns (9,9), a
    cell at Manhattan distance 8; the two loops scan the square of offsets
    with |dx| <= 4 and |dy| <= 4, not the cells within Manhattan distance 4. *)
Lemma look_around_beyond_range :
  let s := new_session (w10 [(9, 9)]) 5 5 in
  eval (look_around 4) s = Some (9, 9)
  ∧ Z.abs (9 - x (herald s)) + Z.abs (9 - y (herald s)) = 8
  ∧ (4 <? 8) = true.
Proof. vm_compute. repeat split. Qed.

(** X1: what [look_around] computes, for every store and every vision range: it
    changes no state; it returns no cell exactly when no in-grid food cell
    lies in the square of offsets |dx| <= range, |dy| <= range; otherwise it
    returns an in-grid food cell of that square whose Manhattan distance is
    minimal among the in-grid food cells of the square, and among those of
    minimal distance the first in scan order (dx ascending, then dy). *)
Theorem look_around_scan (vision_range : Z) (s : Store) :
  exec (look_around vision_range) s = s
  ∧ match eval (look_around vision_range) s with
    | None =>
        ∀ d, - vision_range ≤ d.1 ≤ vision_range →
             - vision_range ≤ d.2 ≤ vision_range →
             food_in_view s d = false
    | Some (cx, cy) =>
        let d := (cx - x (herald s), cy - y (herald s)) in
        (- vision_range ≤ d.1 ≤ vision_range ∧ - vision_range ≤ d.2 ≤ vision_range)
        ∧ food_in_view s d = true
        ∧ ∀ d', - vision_range ≤ d'.1 ≤ vision_range →
                - vision_range ≤ d'.2 ≤ vision_range →
                food_in_view s d' = true →
                manhattan d < manhattan d'
                ∨ (manhattan d = manhattan d' ∧ (d = d' ∨ scan_before d d'))
    end.
Proof.
  split; [apply look_around_exec|].
  destruct (look_around_nearest vision_range s) as [nearest Hnear].
  destruct (eval (look_around vision_range) s) as [[cx cy]|];
    destruct nearest as [|n]; unfold nearest_of in Hnear; try done.
  - destruct Hnear as ([dx dy] & Hin & [= -> ->] & -> & Hfood & Hmin).
    cbn [fst snd] in *.
    replace (x (herald s) + dx - x (herald s)) with dx by lia.
    replace (y (herald s) + dy - y (herald s)) with dy by lia.
    cbn zeta. split; [by apply (elem_of_scan_order vision_range (dx, dy))|].
    split; [done|]. intros d' Hd1 Hd2 Hf'. apply Hmin; [|done].
    by apply elem_of_scan_order.
  - intros d Hd1 Hd2. apply Hnear. by apply elem_of_scan_order.
Qed.

Lemma look_around_scan_witness :
  let s := new_session (w10 [(3, 1); (5, 3); (9, 9)]) 3 3 in
  eval (look_around 4) s = Some (3, 1)
  ∧ (manhattan (0, -2) < manhattan (2, 0)
     ∨ manhattan (0, -2) = manhattan (2, 0)
       ∧ ((0, -2) = (2, 0) ∨ scan_before (0, -2) (2, 0))).
Proof.
  intros s. split; [reflexivity|].
  destruct (look_around_scan 4 s) as [_ Hscan].
  change (eval (look_around 4) s) with (Some (3, 1)) in Hscan.
  destruct Hscan as (_ & _ & Hmin).
  apply (Hmin (2, 0)); [done..|reflexivity].
Defined.

(** C7: [move_toward].  After its two debug lines (which touch neither the
    actor nor the world), the call fails with the already-here result and
    makes no [move] when both deltas are zero; otherwise its result and its
    store are those of exactly one [move]: along the axis with the strictly
    larger absolute delta, and on a tie along the horizontal axis when dx is
    not zero, else along the vertical axis (a case the tie never reaches,
    since a tie with dx = 0 has dy = 0).  It never returns Python's None. *)
Theorem move_toward_spec (now : string) (target_x target_y : Z) (s : Store) :
  let dx := target_x - x (herald s) in
  let dy := target_y - y (herald s) in
  ∃ line1 line2,
    let s' := mkStore (world s) (herald s) (stdout s ++ [line1; line2]) in
    (dx = 0 → dy = 0 →
       move_toward now target_x target_y s = (Some (false, "Already here"), s'))
    ∧ (∀ direction,
         (Z.abs dy < Z.abs dx ∧ direction = (if 0 <? dx then "east" else "west"))
         ∨ (Z.abs dx < Z.abs dy ∧ direction = (if 0 <? dy then "south" else "north"))
         ∨ (Z.abs dx = Z.abs dy ∧ dx ≠ 0
            ∧ direction = (if 0 <? dx then "east" else "west"))
         ∨ (Z.abs dx = Z.abs dy ∧ dx = 0 ∧ dy ≠ 0
            ∧ direction = (if 0 <? dy then "south" else "north")) →
         move_toward now target_x target_y s
         = (Some (eval (move now direction) s'), exec (move now direction) s'))
    ∧ is_Some (eval (move_toward now target_x target_y) s).
Proof.
  intros dx dy.
  exists (toward_banner target_x target_y (herald s)), (toward_note dx dy).
  cbn zeta. unfold eval at 2. rewrite move_toward_eq. fold dx dy. cbn zeta.
  unfold printed. cbn [world herald stdout]. rewrite <-(assoc_L (++)). cbn [app].
  split; [|split].
  - intros -> ->. done.
  - intros direction Hcase. unfold toward.
    destruct ((dx =? 0) && (dy =? 0)) eqn:Hz.
    { apply andb_true_iff in Hz. lia. }
    destruct (Z.ltb_spec (Z.abs dy) (Z.abs dx)) as [Hh|Hh].
    { destruct Hcase as [[_ ->]|[[? _]|[[? _]|[? _]]]]; [done|lia..]. }
    destruct (Z.ltb_spec (Z.abs dx) (Z.abs dy)) as [Hv|Hv].
    { destruct Hcase as [[? _]|[[_ ->]|[[? _]|[? _]]]]; [lia|done|lia..]. }
    destruct (Z.eqb_spec dx 0) as [Hx|Hx]; cbn [negb].
    + apply andb_false_iff in Hz. lia.
    + destruct Hcase as [[? _]|[[? _]|[(_ & _ & ->)|(_ & ? & _)]]]; [lia..|done|done].
  - destruct (toward dx dy); by eexists.
Qed.

(** Scenario D: from (3,3) with food at (3,1), the target is two cells to the
    north; one [move] north succeeds and the actor stands at (3,2). *)
Lemma move_toward_spec_witness :
  let s := new_session (w10 [(3, 1)]) 3 3 in
  eval (move_toward "12:00:00" 3 1) s = Some (true, "Moved north")
  ∧ (x (herald (exec (move_toward "12:00:00" 3 1) s)),
     y (herald (exec (move_toward "12:00:00" 3 1) s))) = (3, 2)
  ∧ eval (move_toward "12:00:00" 3 3) s = Some (false, "Already here").
Proof.
  intros s.
  destruct (move_toward_spec "12:00:00" 3 1 s) as (l1 & l2 & _ & Hstep & _).
  destruct (move_toward_spec "12:00:00" 3 3 s) as (k1 & k2 & Hhere & _ & _).
  cbn zeta in Hstep, Hhere.
  specialize (Hstep "north").
  unfold eval at 1 2, exec at 1 2.
  rewrite Hstep by (right; left; done). rewrite Hhere by done. done.
Defined.

(** ** The autonomous policy *)

Lemma eat_printed now line s :
  eat now (printed line s) = ((eat now s).1, printed line (eat now s).2).
Proof.
  rewrite !eat_eq. cbn zeta. unfold printed. cbn [world herald stdout].
  by destruct (has_food_at _ _ _).
Qed.

Lemma eat_on_food now s :
  has_food_at (world s) (x (herald s)) (y (herald s)) = true →
  eval (eat now) s = (true, "Ate food! Yum!")
  ∧ (x (herald (exec (eat now) s)), y (herald (exec (eat now) s)))
    = (x (herald s), y (herald s))
  ∧ ∃ entry, e_type entry = "EAT"
             ∧ last (actions_taken (herald (exec (eat now) s))) = Some entry.
Proof.
  intros Hfood. unfold eval, exec. rewrite eat_eq. cbn zeta. rewrite Hfood.
  do 2 (split; [done|]). eexists. split; [|apply last_capped]. done.
Qed.

(** C9: rule 1 of [herald_auto_decide].  When food is at the actor's cell
    and hunger exceeds 30, the policy performs [eat] and nothing else,
    whatever the random source: the actor and the world afterwards are those
    [eat] leaves, the position is unchanged, the newest history entry is an
    EAT record, and every random source gives the same store. *)
Theorem decide_eats_first (rnd : Random) (now : string) (s : Store) :
  has_food_at (world s) (x (herald s)) (y (herald s)) = true →
  30 < hunger (herald s) →
  let s' := exec (herald_auto_decide rnd now) s in
  world s' = world (exec (eat now) s)
  ∧ herald s' = herald (exec (eat now) s)
  ∧ eval (eat now) s = (true, "Ate food! Yum!")
  ∧ (x (herald s'), y (herald s')) = (x (herald s), y (herald s))
  ∧ (∃ entry, e_type entry = "EAT" ∧ last (actions_taken (herald s')) = Some entry)
  ∧ ∀ rnd', exec (herald_auto_decide rnd' now) s = s'.
Proof.
  intros Hfood Hhungry. cbn zeta.
  assert (∀ r, exec (herald_auto_decide r now) s
               = printed "[Herald thinks: Food right here! I should eat.]"
                   (printed (decide_banner s) (exec (eat now) s))) as Hexec.
  { intros r. rewrite herald_auto_decide_exec. cbn zeta. unfold decide_note.
    rewrite Hfood. destruct (Z.ltb_spec 30 (hunger (herald s))); [|lia].
    cbn [andb]. unfold exec. by rewrite !eat_printed. }
  rewrite Hexec. cbn [printed world herald].
  destruct (eat_on_food now s Hfood) as (Hr & Hpos & Hentry).
  repeat (split; [done|]). intros rnd'. by rewrite !Hexec.
Qed.

(** Scenario E: at (3,3) with hunger 50 and food at (3,3), the policy eats. *)
Lemma decide_eats_first_witness :
  let s := mkStore (w10 [(3, 3)]) (set_hunger 50 (Herald_init 3 3)) [] in
  let s' := exec (herald_auto_decide (mkRandom 2 true) "12:00:00") s in
  herald s' = herald (exec (eat "12:00:00") s)
  ∧ (x (herald s'), y (herald s')) = (3, 3)
  ∧ hunger (herald s') = 0.
Proof.
  intros s s'.
  destruct (decide_eats_first (mkRandom 2 true) "12:00:00" s eq_refl eq_refl)
    as (_ & Hh & _ & Hpos & _).
  split; [exact Hh|]. split; [exact Hpos|]. reflexivity.
Defined.

(** ** Further properties of the data model *)

(** X2: the history is bounded.  After any sequence of calls on a fresh
    actor the history holds at most 20 entries, and logging onto a history of
    exactly 20 entries drops the oldest one and puts the new one last. *)
Theorem history_bounded :
  (∀ w start_x start_y calls,
     (length (actions_taken
                (herald (exec (run calls) (new_session w start_x start_y)))) ≤ 20)%nat)
  ∧ (∀ now action_type description s,
       length (actions_taken (herald s)) = 20%nat →
       ∃ entry,
         e_type entry = action_type
         ∧ actions_taken (herald (exec (log_action now action_type description) s))
           = tail (actions_taken (herald s)) ++ [entry]).
Proof.
  split.
  - intros w start_x start_y calls.
    apply (ev_history _ _ (evolves_run calls (new_session w start_x start_y))).
    simpl. lia.
  - intros now action_type description s Hfull. unfold exec.
    rewrite log_action_eq. cbn [snd logged herald actions_taken set_actions_taken].
    eexists. split; cycle 1.
    + unfold capped. rewrite length_app, Hfull.
      change (20 <? Z.of_nat (20 + length [_])) with true. cbn iota.
      destruct (actions_taken (herald s)); [done|reflexivity].
    + done.
Qed.

Lemma history_bounded_witness :
  let s := exec (run (replicate 20 ("12:00:00", CallWait))) (new_session (w10 []) 5 5) in
  length (actions_taken (herald s)) = 20%nat
  ∧ ∃ entry,
      e_type entry = "MOVE"
      ∧ actions_taken (herald (exec (log_action "12:00:01" "MOVE" "Moved") s))
        = tail (actions_taken (herald s)) ++ [entry].
Proof.
  intros s. split; [reflexivity|].
  apply (proj2 history_bounded "12:00:01" "MOVE" "Moved" s). reflexivity.
Defined.

(** X3: the hunger descriptor has five contiguous bands: below 20 "Full",
    [20,40) "Satisfied", [40,60) "Getting hungry", [60,80) "Very hungry", and
    from 80 on "STARVING". *)
Theorem hunger_bands (h : Herald) :
  (hunger h < 20 → get_hunger_description h = "Full")
  ∧ (20 ≤ hunger h < 40 → get_hunger_description h = "Satisfied")
  ∧ (40 ≤ hunger h < 60 → get_hunger_description h = "Getting hungry")
  ∧ (60 ≤ hunger h < 80 → get_hunger_description h = "Very hungry")
  ∧ (80 ≤ hunger h → get_hunger_description h = "STARVING").
Proof.
  unfold get_hunger_description.
  repeat split; intros Hband;
    repeat match goal with
           | |- context [hunger h <? ?n] => destruct (Z.ltb_spec (hunger h) n)
           end; done || lia.
Qed.

Lemma hunger_bands_witness :
  get_hunger_description (Herald_init 2 2) = "Full"
  ∧ get_hunger_description (set_hunger 100 (Herald_init 2 2)) = "STARVING".
Proof.
  split.
  - apply (hunger_bands (Herald_init 2 2)). reflexivity.
  - apply (hunger_bands (set_hunger 100 (Herald_init 2 2))). discriminate.
Defined.

(** X4: the grid is never resized and food is only ever removed: after any
    sequence of calls the width and height are the initial ones and the food
    set is a subset of the initial one. *)
Theorem world_only_loses_food (calls : list (string * Call)) (s : Store) :
  let s' := exec (run calls) s in
  width (world s') = width (world s)
  ∧ height (world s') = height (world s)
  ∧ food_locations (world s') ⊆ food_locations (world s).
Proof.
  destruct (evolves_run calls s) as [Hw Hh Hf _ _ _ _ _]. by repeat split.
Qed.

(** ** [look_around] against the Manhattan range *)

Lemma manhattan_window vision_range (d : Z * Z) :
  manhattan d ≤ vision_range →
  - vision_range ≤ d.1 ≤ vision_range ∧ - vision_range ≤ d.2 ≤ vision_range.
Proof. unfold manhattan. lia. Qed.

(** X5: when some in-grid food cell lies within Manhattan distance
    [vision_range] of the actor, [look_around] returns a cell: an in-grid food
    cell within that Manhattan distance, nearest among all in-grid food cells
    within it, and first in scan order among the nearest.  The square scan
    departs from the Manhattan range only when no food lies within range. *)
Theorem look_around_in_range (vision_range : Z) (s : Store) (d0 : Z * Z) :
  manhattan d0 ≤ vision_range →
  food_in_view s d0 = true →
  ∃ cx cy,
    eval (look_around vision_range) s = Some (cx, cy)
    ∧ let d := (cx - x (herald s), cy - y (herald s)) in
      manhattan d ≤ vision_range
      ∧ food_in_view s d = true
      ∧ ∀ d', manhattan d' ≤ vision_range → food_in_view s d' = true →
              manhattan d < manhattan d'
              ∨ (manhattan d = manhattan d' ∧ (d = d' ∨ scan_before d d')).
Proof.
  intros Hrange Hfood.
  destruct (look_around_nearest vision_range s) as [nearest Hnear].
  destruct (eval (look_around vision_range) s) as [[cx cy]|];
    destruct nearest as [|n]; unfold nearest_of in Hnear; try done.
  - destruct Hnear as ([dx dy] & Hin & [= -> ->] & -> & Hf & Hmin).
    exists (x (herald s) + dx), (y (herald s) + dy). split; [done|].
    cbn [fst snd] in *.
    replace (x (herald s) + dx - x (herald s)) with dx by lia.
    replace (y (herald s) + dy - y (herald s)) with dy by lia.
    cbn zeta.
    assert (∀ d', manhattan d' ≤ vision_range → food_in_view s d' = true →
                  manhattan (dx, dy) < manhattan d'
                  ∨ (manhattan (dx, dy) = manhattan d'
                     ∧ ((dx, dy) = d' ∨ scan_before (dx, dy) d'))) as Hball.
    { intros d' Hd' Hf'. apply Hmin; [|done].
      apply elem_of_scan_order. by apply manhattan_window. }
    split; [|by split].
    destruct (Hball d0 Hrange Hfood) as [?|[? _]]; lia.
  - exfalso. rewrite Hnear in Hfood; [done|].
    apply elem_of_scan_order. by apply manhattan_window.
Qed.

Lemma look_around_in_range_witness :
  let s := new_session (w10 [(3, 1); (5, 3); (9, 9)]) 3 3 in
  ∃ cx cy,
    eval (look_around 4) s = Some (cx, cy)
    ∧ manhattan (cx - 3, cy - 3) ≤ 4.
Proof.
  intros s.
  destruct (look_around_in_range 4 s (2, 0)) as (cx & cy & Hcell & Hin & _);
    [done..|].
  by exists cx, cy.
Defined.

(** ** Greedy stepping reaches its target *)

Lemma toward_cases (dx dy : Z) :
  Z.abs dx + Z.abs dy ≠ 0 →
  ∃ direction ox oy,
    toward dx dy = Some direction
    ∧ unit_offset direction = Some (ox, oy)
    ∧ Z.abs (dx - ox) + Z.abs (dy - oy) = Z.abs dx + Z.abs dy - 1
    ∧ (0 ≤ ox ≤ dx ∨ dx ≤ ox ≤ 0)
    ∧ (0 ≤ oy ≤ dy ∨ dy ≤ oy ≤ 0).
Proof.
  intros Hfar. unfold toward.
  destruct (Z.eqb_spec dx 0) as [Hx|Hx], (Z.eqb_spec dy 0) as [Hy|Hy];
    cbn [andb negb]; try lia;
    destruct (Z.ltb_spec (Z.abs dy) (Z.abs dx)), (Z.ltb_spec (Z.abs dx) (Z.abs dy));
    try lia;
    destruct (Z.ltb_spec 0 dx), (Z.ltb_spec 0 dy); try lia;
    eexists _, _, _; (split; [reflexivity|]); (split; [reflexivity|]); lia.
Qed.

Lemma move_success now direction ox oy s :
  unit_offset direction = Some (ox, oy) →
  is_valid_position (world s) (x (herald s) + ox) (y (herald s) + oy) = true →
  move now direction s =
  ((true, "Moved " +:+ direction),
   logged now "MOVE"
     (move_description direction (x (herald s) + ox) (y (herald s) + oy))
     (at_position (x (herald s) + ox) (y (herald s) + oy) s)).
Proof. intros Hoff Hvalid. rewrite move_eq, Hoff. cbn zeta. by rewrite Hvalid. Qed.

Lemma move_toward_closer now target_x target_y s :
  in_bounds s →
  is_valid_position (world s) target_x target_y = true →
  distance_to target_x target_y s ≠ 0 →
  ∃ direction ox oy,
    unit_offset direction = Some (ox, oy)
    ∧ eval (move_toward now target_x target_y) s = Some (true, "Moved " +:+ direction)
    ∧ world (exec (move_toward now target_x target_y) s) = world s
    ∧ x (herald (exec (move_toward now target_x target_y) s)) = x (herald s) + ox
    ∧ y (herald (exec (move_toward now target_x target_y) s)) = y (herald s) + oy
    ∧ hunger (herald (exec (move_toward now target_x target_y) s)) = hunger (herald s)
    ∧ distance_to target_x target_y (exec (move_toward now target_x target_y) s)
      = distance_to target_x target_y s - 1
    ∧ in_bounds (exec (move_toward now target_x target_y) s).
Proof.
  intros [Hx Hy] Htarget Hfar. apply is_valid_position_spec in Htarget.
  destruct (toward_cases _ _ Hfar) as (direction & ox & oy & Htoward & Hoff & Hd & Hox & Hoy).
  exists direction, ox, oy. split; [done|].
  unfold eval, exec. rewrite move_toward_eq. cbn zeta. rewrite Htoward.
  set (s' := printed _ (printed _ s)).
  rewrite (move_success now direction ox oy s' Hoff).
  2:{ apply is_valid_position_spec. simpl. lia. }
  unfold distance_to, in_bounds. simpl. repeat split; try done; lia.
Qed.

(** X6: one greedy step.  From a position inside the grid, [move_toward] a
    different cell of the grid always succeeds: it returns the success of one
    [move], the actor is exactly one unit step away from where it was, its
    Manhattan distance to the target is one less, it is still inside the
    grid, and neither hunger nor the world changes. *)
Theorem move_toward_progress (now : string) (target_x target_y : Z) (s : Store) :
  in_bounds s →
  is_valid_position (world s) target_x target_y = true →
  (target_x, target_y) ≠ (x (herald s), y (herald s)) →
  let s' := exec (move_toward now target_x target_y) s in
  (∃ direction, direction ∈ ["north"; "south"; "east"; "west"]
                ∧ eval (move_toward now target_x target_y) s
                  = Some (true, "Moved " +:+ direction))
  ∧ distance_to target_x target_y s' = distance_to target_x target_y s - 1
  ∧ Z.abs (x (herald s') - x (herald s)) + Z.abs (y (herald s') - y (herald s)) = 1
  ∧ in_bounds s'
  ∧ hunger (herald s') = hunger (herald s)
  ∧ world s' = world s.
Proof.
  intros Hin Htarget Hne.
  assert (distance_to target_x target_y s ≠ 0) as Hfar.
  { unfold distance_to. intros Hz. apply Hne. f_equal; lia. }
  destruct (move_toward_closer now target_x target_y s Hin Htarget Hfar)
    as (direction & ox & oy & Hoff & Hr & Hw & Hx & Hy & Hh & Hd & Hb).
  cbn zeta. rewrite Hx, Hy. split; [|split; [|split; [|split; [|split]]]]; try done.
  - exists direction. split; [|done].
    destruct (decide (direction ∈ ["north"; "south"; "east"; "west"])) as [|Hout];
      [done|].
    by rewrite (unit_offset_other _ Hout) in Hoff.
  - unfold unit_offset in Hoff.
    repeat match type of Hoff with
           | (if ?b then _ else _) = _ => destruct b
           end; try discriminate; injection Hoff as <- <-; lia.
Qed.

Lemma move_toward_progress_witness :
  let s := new_session (w10 [(3, 1)]) 3 3 in
  distance_to 3 1 (exec (move_toward "12:00:00" 3 1) s) = 1
  ∧ in_bounds (exec (move_toward "12:00:00" 3 1) s).
Proof.
  intros s.
  destruct (move_toward_progress "12:00:00" 3 1 s) as (_ & Hd & _ & Hb & _).
  - by apply (proj1 (is_valid_position_spec (w10 [(3, 1)]) 3 3)).
  - reflexivity.
  - discriminate.
  - split; [exact Hd | exact Hb].
Defined.

Lemma move_toward_here now target_x target_y s :
  (x (herald s), y (herald s)) = (target_x, target_y) →
  eval (move_toward now target_x target_y) s = Some (false, "Already here").
Proof.
  intros [= <- <-]. unfold eval. rewrite move_toward_eq. cbn zeta.
  by rewrite !Z.sub_diag.
Qed.

Lemma approach_reaches_aux target_x target_y nows :
  ∀ s,
    in_bounds s →
    is_valid_position (world s) target_x target_y = true →
    distance_to target_x target_y s = Z.of_nat (length nows) →
    let s' := exec (run (approach target_x target_y nows)) s in
    (x (herald s'), y (herald s')) = (target_x, target_y)
    ∧ hunger (herald s') = hunger (herald s)
    ∧ world s' = world s.
Proof.
  induction nows as [|now nows IH]; intros s Hin Htarget Hdist.
  - unfold distance_to in Hdist. simpl in Hdist. cbn zeta. unfold exec. simpl.
    split; [f_equal; lia | done].
  - unfold approach. rewrite fmap_cons, exec_run_cons. fold (approach target_x target_y nows).
    cbn [call]. rewrite exec_then.
    destruct (move_toward_closer now target_x target_y s Hin Htarget)
      as (direction & ox & oy & _ & _ & Hw & _ & _ & Hh & Hd & Hb).
    { rewrite Hdist. simpl. lia. }
    destruct (IH (exec (move_toward now target_x target_y) s)) as (Hpos & Hh' & Hw').
    + done.
    + by rewrite Hw.
    + rewrite Hd, Hdist. simpl. lia.
    + cbn zeta. rewrite Hpos, Hh', Hw'. by rewrite Hh, Hw.
Qed.

(** X7: greedy stepping reaches its target.  From a position inside the
    grid, as many [move_toward] calls as the Manhattan distance to a cell of
    the grid put the actor on that cell, with hunger and world unchanged; one
    more call reports that the actor is already there. *)
Theorem approach_reaches (target_x target_y : Z) (nows : list string) (s : Store) :
  in_bounds s →
  is_valid_position (world s) target_x target_y = true →
  Z.of_nat (length nows) = distance_to target_x target_y s →
  let s' := exec (run (approach target_x target_y nows)) s in
  (x (herald s'), y (herald s')) = (target_x, target_y)
  ∧ hunger (herald s') = hunger (herald s)
  ∧ world s' = world s
  ∧ ∀ now, eval (move_toward now target_x target_y) s' = Some (false, "Already here").
Proof.
  intros Hin Htarget Hlen.
  destruct (approach_reaches_aux target_x target_y nows s Hin Htarget (eq_sym Hlen))
    as (Hpos & Hh & Hw).
  cbn zeta. do 3 (split; [done|]). intros now. by apply move_toward_here.
Qed.

Lemma approach_reaches_witness :
  let s := new_session (w10 [(6, 2)]) 3 3 in
  let s' := exec (run (approach 6 2 ["12:00:00"; "12:00:01"; "12:00:02"; "12:00:03"])) s in
  (x (herald s'), y (herald s')) = (6, 2).
Proof.
  intros s.
  destruct (approach_reaches 6 2 ["12:00:00"; "12:00:01"; "12:00:02"; "12:00:03"] s)
    as (Hpos & _).
  - by apply (proj1 (is_valid_position_spec (w10 [(6, 2)]) 3 3)).
  - reflexivity.
  - reflexivity.
  - exact Hpos.
Defined.

(** ** Hunger as a count of ticks *)

Lemma vitals_move now direction s : vitals (exec (move now direction) s) = vitals s.
Proof.
  unfold exec. rewrite move_eq.
  destruct (unit_offset direction) as [[ox oy]|]; [|done].
  cbn zeta. by destruct (is_valid_position _ _ _).
Qed.

Lemma vitals_move_toward now target_x target_y s :
  vitals (exec (move_toward now target_x target_y) s) = vitals s.
Proof.
  unfold exec. rewrite move_toward_eq. cbn zeta.
  destruct (toward _ _); [|done]. cbn [snd].
  match goal with |- context [(move ?n ?d ?s').2] => apply (vitals_move n d s') end.
Qed.

Lemma vitals_fasting now c s :
  fasting c = true → is_tick c = false →
  vitals (exec (call now c) s) = vitals s.
Proof.
  intros Hfast Htick. destruct c; try discriminate; unfold call; rewrite ?exec_then.
  - apply vitals_move.
  - unfold exec, wait. by rewrite log_action_eq.
  - by rewrite look_around_exec.
  - apply vitals_move_toward.
Qed.

Lemma vitals_eq (h h' : Z) (a a' : bool) (r r' : Z) :
  h = h' → a = a' → r = r' → (h, a, r) = (h', a', r').
Proof. by intros -> -> ->. Qed.

Lemma vitals_tick now s k :
  0 ≤ k →
  vitals s = (Z.min 100 (5 * k), k <? 20, 5) →
  vitals (exec (tick now) s) = (Z.min 100 (5 * (k + 1)), k + 1 <? 20, 5).
Proof.
  intros Hk. unfold vitals, exec. rewrite tick_eq. cbn [snd].
  intros [= Hh Ha Hr]. rewrite Ha.
  destruct (Z.ltb_spec k 20) as [Hlive|Hdead].
  - cbn zeta. rewrite Hh, Hr.
    destruct (Z.leb_spec 100 (Z.min 100 (5 * k) + 5)) as [Hdie|Hgo];
      destruct (Z.ltb_spec (k + 1) 20); try (exfalso; lia);
      cbn [logged herald hunger alive hunger_rate set_actions_taken set_alive
           set_hunger]; apply vitals_eq; try done; lia.
  - destruct (Z.ltb_spec (k + 1) 20); [exfalso; lia|].
    apply vitals_eq; try done; lia.
Qed.

Lemma vitals_run calls :
  forallb (λ c, fasting c.2) calls = true →
  ∀ s k, 0 ≤ k →
    vitals s = (Z.min 100 (5 * k), k <? 20, 5) →
    vitals (exec (run calls) s)
    = (Z.min 100 (5 * (k + ticks_in calls)), k + ticks_in calls <? 20, 5).
Proof.
  induction calls as [|[now c] calls IH]; intros Hfast s k Hk Hs.
  - simpl. unfold exec. simpl. by rewrite Z.add_0_r.
  - cbn [forallb] in Hfast. apply andb_true_iff in Hfast as [Hc Hrest].
    rewrite exec_run_cons. cbn [ticks_in]. destruct (is_tick c) eqn:Htick.
    + destruct c; try discriminate. cbn [call].
      rewrite (IH Hrest _ (k + 1)); [|lia|by apply vitals_tick].
      by rewrite Z.add_assoc.
    + rewrite (IH Hrest _ k); [|lia|by rewrite vitals_fasting].
      by rewrite Z.add_0_l.
Qed.

(** X8: hunger counts ticks.  After any sequence of calls on a fresh actor
    that contains neither [eat] nor the policy, hunger is 5 times the number
    of [tick] calls, capped at 100, and the actor is alive exactly when fewer
    than 20 ticks were made: moving, waiting and looking cost no hunger. *)
Theorem hunger_counts_ticks (w : World) (start_x start_y : Z)
    (calls : list (string * Call)) :
  forallb (λ c, fasting c.2) calls = true →
  let s := exec (run calls) (new_session w start_x start_y) in
  hunger (herald s) = Z.min 100 (5 * ticks_in calls)
  ∧ alive (herald s) = (ticks_in calls <? 20).
Proof.
  intros Hfast.
  pose proof (vitals_run calls Hfast (new_session w start_x start_y) 0) as Hv.
  rewrite Z.add_0_l in Hv. cbn zeta.
  injection (Hv ltac:(lia) eq_refl) as Hh Ha _. by split.
Qed.

Lemma hunger_counts_ticks_witness :
  let calls := [("12:00:00", CallMove "east"); ("12:00:01", CallTick);
                ("12:00:02", CallWait); ("12:00:03", CallTick)] in
  let s := exec (run calls) (new_session (w10 []) 5 5) in
  hunger (herald s) = 10 ∧ alive (herald s) = true.
Proof.
  intros calls.
  exact (hunger_counts_ticks (w10 []) 5 5 calls eq_refl).
Defined.

(** ** Hunger of a live actor *)

Lemma healthy_vitals s s' : vitals s' = vitals s → healthy s → healthy s'.
Proof. unfold vitals, healthy. by intros [= -> -> ->]. Qed.

Lemma healthy_eat now s : healthy s → healthy (exec (eat now) s).
Proof.
  intros Hs. pose proof Hs as (Hr & [q Hq] & Hh & Ha).
  unfold exec. rewrite eat_eq. cbn zeta.
  destruct (has_food_at _ _ _); [|done].
  unfold healthy. simpl. split; [done|]. split; [|lia].
  destruct (Z.max_spec 0 (hunger (herald s) - 50)) as [[_ ->]|[_ ->]].
  - exists (q - 10). lia.
  - by exists 0.
Qed.

Lemma healthy_tick now s : healthy s → healthy (exec (tick now) s).
Proof.
  intros Hs. pose proof Hs as (Hr & [q Hq] & Hh & Ha).
  unfold exec. rewrite tick_eq. cbn [snd].
  destruct (alive (herald s)) eqn:Hlive; [|done].
  specialize (Ha eq_refl). cbn zeta. rewrite Hr.
  destruct (Z.leb_spec 100 (hunger (herald s) + 5)); unfold healthy; simpl.
  - split; [done|]. split; [by exists 20|]. split; [lia|done].
  - split; [done|]. split; [exists (q + 1); lia|]. split; lia.
Qed.

Lemma healthy_herald_auto_decide rnd now s :
  healthy s → healthy (exec (herald_auto_decide rnd now) s).
Proof.
  intros Hs. rewrite herald_auto_decide_exec. cbn zeta.
  set (s' := printed _ (printed _ s)).
  assert (healthy s') as Hs' by done.
  destruct (_ && _); [by apply healthy_eat|].
  destruct (40 <? _).
  { destruct (eval _ s) as [[food_x food_y]|];
      [apply (healthy_vitals s'); [apply vitals_move_toward | done]
      |apply (healthy_vitals s'); [apply vitals_move | done]]. }
  destruct (random_below_0_7 rnd); [apply (healthy_vitals s'); [apply vitals_move | done]|done].
Qed.

Lemma healthy_call now c s : healthy s → healthy (exec (call now c) s).
Proof.
  intros Hs. destruct c; unfold call; rewrite ?exec_then.
  - apply (healthy_vitals s); [apply vitals_move | done].
  - by apply healthy_eat.
  - by apply healthy_tick.
  - apply (healthy_vitals s); [|done]. unfold exec, wait. by rewrite log_action_eq.
  - by rewrite look_around_exec.
  - apply (healthy_vitals s); [apply vitals_move_toward | done].
  - by apply healthy_herald_auto_decide.
Qed.

Lemma healthy_run calls s : healthy s → healthy (exec (run calls) s).
Proof.
  revert s. induction calls as [|[now c] calls IH]; intros s Hs; [done|].
  rewrite exec_run_cons. by apply IH, healthy_call.
Qed.

(** X9: a live actor is below the death threshold.  After any sequence of
    calls on a fresh actor, hunger is a multiple of 5, and while the actor is
    alive it is at most 95: hunger 100 is only ever seen on a dead actor. *)
Theorem live_hunger_below_100 (w : World) (start_x start_y : Z)
    (calls : list (string * Call)) :
  let s := exec (run calls) (new_session w start_x start_y) in
  (5 | hunger (herald s))
  ∧ (alive (herald s) = true → hunger (herald s) ≤ 95)
  ∧ (hunger (herald s) = 100 → alive (herald s) = false).
Proof.
  destruct (healthy_run calls (new_session w start_x start_y)) as (_ & Hdiv & _ & Ha).
  { unfold healthy. simpl. split; [done|]. split; [by exists 0|]. split; [lia|done]. }
  cbn zeta. split; [done|]. split; [done|].
  intros Hfull. destruct (alive _); [|done]. specialize (Ha eq_refl). lia.
Qed.

Lemma live_hunger_below_100_witness :
  let s := exec (run (ticks 19)) (new_session (w10 []) 5 5) in
  hunger (herald s) ≤ 95.
Proof.
  intros s.
  destruct (live_hunger_below_100 (w10 []) 5 5 (ticks 19)) as (_ & Hlive & _).
  apply Hlive. reflexivity.
Defined.

(** ** The policy beyond its first rule *)

Lemma explore_direction_cardinal rnd :
  explore_direction rnd ∈ ["north"; "south"; "east"; "west"].
Proof.
  unfold explore_direction, choice. cbn [length].
  pose proof (Nat.mod_upper_bound (choice_index rnd) 4 ltac:(lia)) as Hlt.
  destruct (choice_index rnd `mod` 4)%nat as [|[|[|[|n]]]]; [..|lia];
    cbn; repeat constructor.
Qed.

Lemma move_one_step now direction s :
  Z.abs (x (herald (exec (move now direction) s)) - x (herald s))
  + Z.abs (y (herald (exec (move now direction) s)) - y (herald s)) ≤ 1
  ∧ world (exec (move now direction) s) = world s.
Proof.
  unfold exec. rewrite move_eq.
  destruct (unit_offset direction) as [[ox oy]|] eqn:Hoff;
    [|split; [simpl; lia | done]].
  cbn zeta. destruct (is_valid_position _ _ _); [|split; [simpl; lia | done]].
  simpl. split; [|done]. unfold unit_offset in Hoff.
  repeat match type of Hoff with
         | (if ?b then _ else _) = _ => destruct b
         end; try discriminate; injection Hoff as <- <-; lia.
Qed.

Lemma move_toward_one_step now target_x target_y s :
  Z.abs (x (herald (exec (move_toward now target_x target_y) s)) - x (herald s))
  + Z.abs (y (herald (exec (move_toward now target_x target_y) s)) - y (herald s)) ≤ 1
  ∧ world (exec (move_toward now target_x target_y) s) = world s.
Proof.
  unfold exec. rewrite move_toward_eq. cbn zeta.
  destruct (toward _ _); [|split; [simpl; lia | done]]. cbn [snd].
  match goal with |- context [(move ?n ?d ?s').2] => apply (move_one_step n d s') end.
Qed.

(** X10: the policy never feeds or starves the actor on its own account.
    Unless rule 1 fires (food at the actor's cell and hunger above 30),
    [herald_auto_decide] leaves hunger, life and the whole world unchanged
    and moves the actor by at most one cell; with hunger at most 30 this
    holds even when the actor stands on food. *)
Theorem decide_without_eating (rnd : Random) (now : string) (s : Store) :
  has_food_at (world s) (x (herald s)) (y (herald s)) && (30 <? hunger (herald s))
  = false →
  let s' := exec (herald_auto_decide rnd now) s in
  hunger (herald s') = hunger (herald s)
  ∧ alive (herald s') = alive (herald s)
  ∧ world s' = world s
  ∧ Z.abs (x (herald s') - x (herald s)) + Z.abs (y (herald s') - y (herald s)) ≤ 1.
Proof.
  intros Hrule1. cbn zeta. rewrite herald_auto_decide_exec. cbn zeta.
  rewrite Hrule1. set (s' := printed _ (printed _ s)).
  assert (∀ s'', vitals s'' = vitals s' →
                 Z.abs (x (herald s'') - x (herald s'))
                 + Z.abs (y (herald s'') - y (herald s')) ≤ 1
                 ∧ world s'' = world s' →
                 hunger (herald s'') = hunger (herald s)
                 ∧ alive (herald s'') = alive (herald s)
                 ∧ world s'' = world s
                 ∧ Z.abs (x (herald s'') - x (herald s))
                   + Z.abs (y (herald s'') - y (herald s)) ≤ 1) as Hframe.
  { intros s'' [= Hh Ha _] [Hstep Hw]. by rewrite Hh, Ha, Hw. }
  destruct (40 <? _).
  { destruct (eval _ s) as [[food_x food_y]|]; apply Hframe.
    - apply vitals_move_toward.
    - apply move_toward_one_step.
    - apply vitals_move.
    - apply move_one_step. }
  destruct (random_below_0_7 rnd); apply Hframe.
  - apply vitals_move.
  - apply move_one_step.
  - done.
  - split; [simpl; lia | done].
Qed.

Lemma decide_without_eating_witness :
  let s := mkStore (w10 [(3, 3)]) (set_hunger 30 (Herald_init 3 3)) [] in
  let s' := exec (herald_auto_decide (mkRandom 1 false) "12:00:00") s in
  hunger (herald s') = 30 ∧ world s' = world s.
Proof.
  intros s.
  destruct (decide_without_eating (mkRandom 1 false) "12:00:00" s eq_refl)
    as (Hh & _ & Hw & _).
  split; [exact Hh | exact Hw].
Defined.

Lemma food_in_view_spec s d :
  food_in_view s d = true ↔
  is_valid_position (world s) (x (herald s) + d.1) (y (herald s) + d.2) = true
  ∧ has_food_at (world s) (x (herald s) + d.1) (y (herald s) + d.2) = true.
Proof. unfold food_in_view. apply andb_true_iff. Qed.

(** X11: rule 2 of the policy closes in on food.  When the actor is inside
    the grid with hunger above 40, no food at its own cell, and some in-grid
    food cell at offsets of at most 2 on each axis, [herald_auto_decide]
    moves it one step toward the food cell [look_around] reports: the
    Manhattan distance to that cell drops by exactly one, whatever the random
    source, and hunger and world are unchanged. *)
Theorem decide_approaches_food (rnd : Random) (now : string) (s : Store)
    (d0 : Z * Z) :
  in_bounds s →
  40 < hunger (herald s) →
  has_food_at (world s) (x (herald s)) (y (herald s)) = false →
  -2 ≤ d0.1 ≤ 2 → -2 ≤ d0.2 ≤ 2 →
  food_in_view s d0 = true →
  ∃ food_x food_y,
    eval (look_around 2) s = Some (food_x, food_y)
    ∧ has_food_at (world s) food_x food_y = true
    ∧ let s' := exec (herald_auto_decide rnd now) s in
      distance_to food_x food_y s' = distance_to food_x food_y s - 1
      ∧ in_bounds s'
      ∧ hunger (herald s') = hunger (herald s)
      ∧ world s' = world s.
Proof.
  intros Hin Hhungry Hhere Hd1 Hd2 Hfood.
  destruct (look_around_nearest 2 s) as [nearest Hnear].
  destruct (eval (look_around 2) s) as [[food_x food_y]|] eqn:Hlook;
    destruct nearest as [|n]; unfold nearest_of in Hnear; try done.
  2:{ exfalso. rewrite Hnear in Hfood; [done|]. by apply elem_of_scan_order. }
  destruct Hnear as ([dx dy] & _ & [= -> ->] & _ & Hf & _).
  apply food_in_view_spec in Hf as [Hvalid Hfoodthere]. cbn [fst snd] in *.
  exists (x (herald s) + dx), (y (herald s) + dy).
  split; [done|]. split; [done|].
  cbn zeta. rewrite herald_auto_decide_exec. cbn zeta.
  rewrite Hhere, Hlook. cbn [andb].
  destruct (Z.ltb_spec 40 (hunger (herald s))); [|lia].
  set (s' := printed _ (printed _ s)).
  destruct (move_toward_closer now (x (herald s) + dx) (y (herald s) + dy) s')
    as (direction & ox & oy & _ & _ & Hw & _ & _ & Hh & Hd & Hb); try done.
  intros Hzero. unfold distance_to in Hzero. simpl in Hzero.
  replace (x (herald s) + dx) with (x (herald s)) in Hfoodthere by lia.
  replace (y (herald s) + dy) with (y (herald s)) in Hfoodthere by lia.
  congruence.
Qed.

Lemma decide_approaches_food_witness :
  let s := mkStore (w10 [(5, 4)]) (set_hunger 45 (Herald_init 3 3)) [] in
  ∃ food_x food_y,
    eval (look_around 2) s = Some (food_x, food_y)
    ∧ distance_to food_x food_y
        (exec (herald_auto_decide (mkRandom 0 true) "12:00:00") s)
      = distance_to food_x food_y s - 1.
Proof.
  intros s.
  destruct (decide_approaches_food (mkRandom 0 true) "12:00:00" s (2, 1))
    as (food_x & food_y & Hlook & _ & Hnear & _).
  - by apply (proj1 (is_valid_position_spec (w10 [(5, 4)]) 3 3)).
  - reflexivity.
  - reflexivity.
  - done.
  - done.
  - reflexivity.
  - by exists food_x, food_y.
Defined.

(** X12: rule 3 of the policy.  With hunger at most 40 and rule 1 not
    firing, [herald_auto_decide] explores or rests on the random source
    alone: when the draw is below 0.7 the actor and the world are those one
    [move] in one of the four directions leaves; otherwise the actor stays
    where it is and a WAIT record is the newest history entry. *)
Theorem decide_explores_or_rests (rnd : Random) (now : string) (s : Store) :
  hunger (herald s) ≤ 40 →
  has_food_at (world s) (x (herald s)) (y (herald s)) && (30 <? hunger (herald s))
  = false →
  let s' := exec (herald_auto_decide rnd now) s in
  if random_below_0_7 rnd then
    ∃ direction,
      direction ∈ ["north"; "south"; "east"; "west"]
      ∧ herald s' = herald (exec (move now direction) s)
      ∧ world s' = world (exec (move now direction) s)
  else
    (x (herald s'), y (herald s')) = (x (herald s), y (herald s))
    ∧ world s' = world s
    ∧ ∃ entry, e_type entry = "WAIT"
               ∧ e_description entry = "Herald rested"
               ∧ last (actions_taken (herald s')) = Some entry.
Proof.
  intros Hcalm Hrule1. cbn zeta. rewrite herald_auto_decide_exec. cbn zeta.
  rewrite Hrule1. destruct (Z.ltb_spec 40 (hunger (herald s))); [lia|].
  destruct (random_below_0_7 rnd).
  - exists (explore_direction rnd). split; [apply explore_direction_cardinal|].
    unfold exec. rewrite !move_eq.
    destruct (unit_offset _) as [[ox oy]|]; [|done].
    cbn zeta. cbn [printed world herald].
    by destruct (is_valid_position _ _ _).
  - do 2 (split; [done|]). eexists. split; [|split; [|apply last_capped]]; done.
Qed.

Lemma decide_explores_or_rests_witness :
  let s := new_session (w10 []) 5 5 in
  let s' := exec (herald_auto_decide (mkRandom 3 false) "12:00:00") s in
  (x (herald s'), y (herald s')) = (5, 5).
Proof.
  intros s.
  pose proof (decide_explores_or_rests (mkRandom 3 false) "12:00:00" s) as Hrest.
  cbn zeta in Hrest. cbn [random_below_0_7] in Hrest.
  destruct Hrest as (Hpos & _); [done..|exact Hpos].
Defined.

(** ** World construction *)

Lemma randint_range a b raw :
  a ≤ b → ∃ n, randint a b raw = Some n ∧ a ≤ n ≤ b.
Proof.
  intros Hab. unfold randint. destruct (Z.ltb_spec b a); [lia|].
  eexists. split; [done|].
  pose proof (Z.mod_pos_bound raw (b - a + 1) ltac:(lia)). lia.
Qed.

Lemma size_add_cell (c : Z * Z) (food : gset (Z * Z)) :
  (size ({[ c ]} ∪ food) ≤ S (size food))%nat.
Proof.
  rewrite size_union_alt, size_singleton. rewrite Nat.add_1_l.
  apply le_n_S, subseteq_size, subseteq_difference_l. done.
Qed.

Lemma spawn_rounds gen (rounds : list nat) (w : World) :
  0 < width w → 0 < height w →
  (∀ c, c ∈ food_locations w → is_valid_position w c.1 c.2 = true) →
  ∃ w',
    foldl (λ acc i,
             w' ← acc;
             cx ← randint 0 (width w' - 1) (gen (2 * i)%nat);
             cy ← randint 0 (height w' - 1) (gen (2 * i + 1)%nat);
             Some (mkWorld (width w') (height w')
                     ({[ (cx, cy) ]} ∪ food_locations w')))
          (Some w) rounds = Some w'
    ∧ width w' = width w
    ∧ height w' = height w
    ∧ (∀ c, c ∈ food_locations w' → is_valid_position w' c.1 c.2 = true)
    ∧ (size (food_locations w') ≤ size (food_locations w) + length rounds)%nat
    ∧ food_locations w ⊆ food_locations w'
    ∧ (rounds ≠ [] → ∃ c, c ∈ food_locations w').
Proof.
  revert w. induction rounds as [|i rounds IH]; intros w Hwd Hht Hfood.
  - exists w. simpl. repeat split; try done. lia.
  - cbn [foldl]. cbn [mbind option_bind].
    destruct (randint_range 0 (width w - 1) (gen (2 * i)%nat)) as (cx & -> & Hcx); [lia|].
    cbn [mbind option_bind].
    destruct (randint_range 0 (height w - 1) (gen (2 * i + 1)%nat)) as (cy & -> & Hcy);
      [lia|].
    cbn [mbind option_bind].
    set (w1 := mkWorld (width w) (height w) ({[(cx, cy)]} ∪ food_locations w)).
    destruct (IH w1) as (w' & Hfold & Hw & Hh & Hvalid & Hsize & Hsub & _); [done..| |].
    { intros c [->%elem_of_singleton|Hc]%elem_of_union.
      - apply is_valid_position_spec. simpl. lia.
      - by apply Hfood in Hc. }
    exists w'. do 4 (split; [done|]). split; [|split].
    + pose proof (size_add_cell (cx, cy) (food_locations w)). simpl in *. lia.
    + intros c Hc. apply Hsub. simpl. apply elem_of_union. by right.
    + intros _. exists (cx, cy). apply Hsub. simpl. apply elem_of_union. left.
      by apply elem_of_singleton.
Qed.

Lemma spawn_raised {A} (step : option World → A → option World) (rounds : list A) :
  (∀ a, step None a = None) → foldl step None rounds = None.
Proof. intros Hstep. induction rounds as [|a rounds IH]; [done|]. simpl. by rewrite Hstep. Qed.

(** X13: [World(width, height)].  The constructor returns a world exactly
    when width and height are positive (otherwise [random.randint] raises);
    the world has the given size, between one and eight food cells, and every
    food cell is inside the grid. *)
Theorem World_init_spec (wd ht : Z) (gen : nat → Z) :
  (0 < wd ∧ 0 < ht →
   ∃ w, World_init wd ht gen = Some w
        ∧ width w = wd ∧ height w = ht
        ∧ (∀ c, c ∈ food_locations w → is_valid_position w c.1 c.2 = true)
        ∧ (1 ≤ size (food_locations w) ≤ 8)%nat)
  ∧ (wd ≤ 0 ∨ ht ≤ 0 → World_init wd ht gen = None).
Proof.
  split.
  - intros [Hwd Hht]. unfold World_init, spawn_initial_food.
    destruct (spawn_rounds gen (seq 0 8) (mkWorld wd ht ∅))
      as (w & Hfold & Hw & Hh & Hvalid & Hsize & _ & Hsome); [done..| |].
    { intros c Hc. by apply elem_of_empty in Hc. }
    exists w. do 4 (split; [done|]). cbn [food_locations length seq] in Hsize.
    rewrite size_empty in Hsize.
    split; [|done]. destruct Hsome as [c Hc]; [done|].
    destruct (size (food_locations w)) eqn:Hzero; [|lia].
    apply size_empty_inv in Hzero. exfalso. apply Hzero in Hc.
    by apply elem_of_empty in Hc.
  - intros Hbad. unfold World_init, spawn_initial_food.
    change (seq 0 8) with (0%nat :: seq 1 7). cbn [foldl].
    match goal with |- foldl ?step ?first _ = None =>
      assert (first = None) as ->; [|by apply spawn_raised]
    end.
    cbn [mbind option_bind width height].
    assert (∀ b raw, b ≤ 0 → randint 0 (b - 1) raw = None) as Hraise.
    { intros b raw Hb. unfold randint. by destruct (Z.ltb_spec (b - 1) 0); [|lia]. }
    destruct Hbad as [Hwd|Hht].
    + rewrite (Hraise wd) by done. reflexivity.
    + destruct (randint 0 (wd - 1) _) as [cx|]; [|reflexivity].
      cbn [mbind option_bind]. rewrite (Hraise ht) by done. reflexivity.
Qed.

Lemma World_init_spec_witness :
  (∃ w, World_init 10 10 (λ i, Z.of_nat i * 7) = Some w
        ∧ (1 ≤ size (food_locations w) ≤ 8)%nat)
  ∧ World_init 0 10 (λ i, Z.of_nat i * 7) = None.
Proof.
  destruct (World_init_spec 10 10 (λ i, Z.of_nat i * 7)) as [Hok _].
  destruct (World_init_spec 0 10 (λ i, Z.of_nat i * 7)) as [_ Hbad].
  split.
  - destruct Hok as (w & Hw & _ & _ & _ & Hsize); [done|]. by exists w.
  - apply Hbad. by left.
Defined.

(** ** Prints and actions of a session *)

Create HintDb session discriminated.

Lemma silent_ret {A} (a : A) : silent (mret a : M A).
Proof. by intros s. Qed.

Lemma silent_print line : silent (print line).
Proof. by intros s. Qed.

Lemma silent_get_self : silent get_self.
Proof. by intros s. Qed.

Lemma silent_get_world : silent get_world.
Proof. by intros s. Qed.

Lemma silent_get_store : silent get_store.
Proof. by intros s. Qed.

Lemma silent_get_status : silent get_status.
Proof. by intros s. Qed.

Lemma silent_look_around vision_range : silent (look_around vision_range).
Proof. intros s. by rewrite look_around_exec. Qed.

Lemma silent_bind {A B} (m : M A) (f : A → M B) :
  silent m → (∀ a, silent (f a)) → silent (m ≫= f).
Proof.
  intros Hm Hf s. rewrite exec_bind.
  destruct (Hf (eval m s) (exec m s)) as [-> ->]. apply Hm.
Qed.

Lemma silent_if {A} (b : bool) (m1 m2 : M A) :
  silent m1 → silent m2 → silent (if b then m1 else m2).
Proof. by destruct b. Qed.

Lemma silent_print_all lines : silent (print_all lines).
Proof.
  induction lines as [|line lines IH]; [apply silent_ret|].
  apply silent_bind; [apply silent_print | done].
Qed.

#[local] Hint Resolve silent_ret silent_print silent_get_self silent_get_world
  silent_get_store silent_get_status silent_look_around silent_bind silent_if
  silent_print_all : session.

Lemma silent_show_help : silent show_help.
Proof. unfold show_help. eauto 10 with session. Qed.

Lemma silent_show_detailed_status : silent show_detailed_status.
Proof. unfold show_detailed_status. eauto 20 with session. Qed.

Lemma silent_show_vision_debug : silent show_vision_debug.
Proof.
  unfold show_vision_debug.
  do 8 (apply silent_bind; [eauto with session|intros ?]).
  apply silent_bind; [|intros; apply silent_print].
  match goal with nearest : option (Z * Z) |- _ => destruct nearest as [[cx cy]|] end;
    apply silent_print.
Qed.

Lemma acts_refl s : acts s s.
Proof. split; [apply evolves_refl|done|lia|done]. Qed.

Lemma acts_trans s1 s2 s3 : acts s1 s2 → acts s2 s3 → acts s1 s3.
Proof.
  intros [He1 Hh1 Hu1 Ha1] [He2 Hh2 Hu2 Ha2]. split.
  - by eapply evolves_trans.
  - auto.
  - intros Hpos. specialize (Hu1 Hpos). specialize (Hu2 ltac:(lia)). lia.
  - congruence.
Qed.

Lemma acts_same s s' : herald s' = herald s → world s' = world s → acts s s'.
Proof.
  intros Hh Hw. split.
  - split; rewrite ?Hh, ?Hw; try done. unfold in_bounds. by rewrite Hh, Hw.
  - unfold healthy. by rewrite Hh.
  - rewrite Hh. lia.
  - by rewrite Hh.
Qed.

Lemma acting_silent {A} (m : M A) : silent m → acting m.
Proof. intros Hm s. destruct (Hm s). by apply acts_same. Qed.

Lemma acting_bind {A B} (m : M A) (f : A → M B) :
  acting m → (∀ a, acting (f a)) → acting (m ≫= f).
Proof.
  intros Hm Hf s. rewrite exec_bind. eapply acts_trans; [apply Hm | apply Hf].
Qed.

Lemma acts_vitals s s' : evolves s s' → vitals s' = vitals s → acts s s'.
Proof.
  intros He [= Hh Ha Hr]. split; [done| |lia|done].
  apply healthy_vitals. unfold vitals. by rewrite Hh, Ha, Hr.
Qed.

Lemma acting_move now direction : acting (move now direction).
Proof. intros s. apply acts_vitals; [apply evolves_move | apply vitals_move]. Qed.

Lemma acting_move_toward now target_x target_y :
  acting (move_toward now target_x target_y).
Proof.
  intros s. apply acts_vitals; [apply evolves_move_toward | apply vitals_move_toward].
Qed.

Lemma acting_log_action now action_type description :
  acting (log_action now action_type description).
Proof.
  intros s. unfold exec. rewrite log_action_eq.
  apply acts_vitals; [apply evolves_logged | done].
Qed.

Lemma acting_eat now : acting (eat now).
Proof.
  intros s. split.
  - apply evolves_eat.
  - apply healthy_eat.
  - unfold exec. rewrite eat_eq. cbn zeta.
    destruct (has_food_at _ _ _); simpl; lia.
  - apply alive_eat.
Qed.

Lemma acting_herald_auto_decide rnd now : acting (herald_auto_decide rnd now).
Proof.
  intros s. split.
  - apply evolves_herald_auto_decide.
  - apply healthy_herald_auto_decide.
  - intros Hpos. rewrite herald_auto_decide_exec. cbn zeta.
    set (s' := printed _ (printed _ s)).
    assert (0 ≤ hunger (herald s')) as Hpos' by done.
    change (hunger (herald s)) with (hunger (herald s')).
    destruct (_ && _); [by apply acting_eat|].
    destruct (40 <? _).
    { destruct (eval _ s) as [[food_x food_y]|];
        [by apply acting_move_toward | by apply acting_move]. }
    destruct (random_below_0_7 rnd); [by apply acting_move|].
    simpl. lia.
  - apply alive_herald_auto_decide.
Qed.

#[local] Hint Resolve acting_silent acting_bind acting_move acting_move_toward
  acting_log_action acting_eat acting_herald_auto_decide silent_show_help
  silent_show_detailed_status silent_show_vision_debug : session.

Lemma acting_if {A} (b : bool) (m1 m2 : M A) :
  acting m1 → acting m2 → acting (if b then m1 else m2).
Proof. by destruct b. Qed.

(** ** Commands *)

Lemma World_init_10 gen :
  ∃ w, World_init 10 10 gen = Some w
       ∧ width w = 10 ∧ height w = 10
       ∧ (∀ c, c ∈ food_locations w → is_valid_position w c.1 c.2 = true)
       ∧ (size (food_locations w) ≤ 8)%nat.
Proof.
  unfold World_init, spawn_initial_food.
  destruct (spawn_rounds gen (seq 0 8) (mkWorld 10 10 ∅))
    as (w & Hfold & Hw & Hh & Hvalid & Hsize & _); [reflexivity|reflexivity| |].
  { intros c Hc. by apply elem_of_empty in Hc. }
  exists w. split; [exact Hfold|]. split; [exact Hw|]. split; [exact Hh|].
  split; [exact Hvalid|]. cbn [food_locations length seq] in Hsize.
  rewrite size_empty in Hsize. exact Hsize.
Qed.

Lemma reset_world_fresh gen show_message g :
  ∃ g' w,
    reset_world gen show_message g = Some g'
    ∧ World_init 10 10 gen = Some w
    ∧ world (session g') = w
    ∧ herald (session g') = Herald_init 5 5
    ∧ tick_count g' = 0
    ∧ auto_mode g' = false
    ∧ step_mode g' = step_mode g
    ∧ running g' = running g.
Proof.
  destruct (World_init_10 gen) as (w & Hw & _).
  unfold reset_world. rewrite Hw. clear Hw. cbn [mbind option_bind].
  eexists _, w. split; [reflexivity|]. split; [reflexivity|].
  destruct show_message; repeat split.
Qed.

Lemma fresh_game_ok g w gen :
  World_init 10 10 gen = Some w →
  world (session g) = w →
  herald (session g) = Herald_init 5 5 →
  tick_count g = 0 →
  game_ok g.
Proof.
  intros Hinit Hw Hh Ht.
  destruct (World_init_10 gen) as (w' & Hw' & Hwd & Hht & Hfood & Hsize).
  rewrite Hinit in Hw'. injection Hw' as <-. clear Hinit.
  split; unfold in_bounds, healthy; rewrite ?Hw, ?Hh, ?Ht, ?Hwd, ?Hht;
    cbn [Herald_init x y hunger hunger_rate alive actions_taken length];
    try assumption; try lia; try discriminate.
  split; [reflexivity|]. split; [by exists 0|]. split; [lia|]. intros _. lia.
Qed.

Lemma Game_init_some gen : ∃ g, Game_init gen = Some g ∧ game_ok g.
Proof.
  destruct (World_init_10 gen) as (w & Hw & _).
  unfold Game_init. rewrite Hw. cbn [mbind option_bind].
  eexists. split; [reflexivity|]. by apply (fresh_game_ok _ w gen).
Qed.

Ltac solve_acting :=
  repeat first [ solve [eauto with session]
               | simple apply @acting_bind; [|intros ?]
               | simple apply @acting_if ].

Ltac plain_command :=
  eexists; split; [reflexivity|]; right;
  split; [intros [= ?]; done|]; split; [|done];
  cbn [on_session session set_session set_running set_auto_mode set_step_mode];
  match goal with
  | |- acts ?s (exec ?m ?s) => assert (acting m) as Hm; [solve_acting|apply Hm]
  end.

Lemma process_command_step now gen parts g :
  ∃ g',
    process_command now gen parts g = Some g'
    ∧ (head parts = Some "reset" ∧ reset_world gen true g = Some g'
       ∨ head parts ≠ Some "reset"
         ∧ acts (session g) (session g')
         ∧ tick_count g' = tick_count g).
Proof.
  destruct parts as [|cmd args].
  { exists g. split; [done|]. right. split; [done|]. split; [apply acts_refl|done]. }
  unfold process_command. cbn [head].
  destruct (String.eqb_spec cmd "move") as [->|Hmove].
  { destruct args as [|direction args]; plain_command. }
  destruct (String.eqb_spec cmd "eat") as [->|Heat]; [plain_command|].
  destruct (String.eqb_spec cmd "wait") as [->|Hwait]; [plain_command|].
  destruct (String.eqb_spec cmd "status") as [->|Hstatus]; [plain_command|].
  destruct (String.eqb_spec cmd "auto") as [->|Hauto]; [plain_command|].
  destruct (String.eqb_spec cmd "step") as [->|Hstep]; [plain_command|].
  destruct (String.eqb_spec cmd "stop") as [->|Hstop]; [plain_command|].
  destruct (String.eqb_spec cmd "reset") as [->|Hreset].
  { destruct (reset_world_fresh gen true g) as (g' & w & Hreset & _).
    exists g'. split; [done|]. left. by split. }
  destruct (String.eqb_spec cmd "help") as [->|Hhelp]; [plain_command|].
  destruct (String.eqb_spec cmd "quit") as [->|Hquit]; plain_command.
Qed.

Ltac solve_silent :=
  repeat first [ solve [eauto with session]
               | simple apply @silent_bind; [|intros ?]
               | simple apply @silent_if ].

(** Closes the frame of a command whose computation [m] is silent. *)
Ltac silent_command Hpc :=
  injection Hpc as <-;
  cbn [on_session session set_session set_running set_auto_mode set_step_mode
       running];
  match goal with
  | |- context [exec ?m (session ?g)] =>
      assert (silent m) as Hm by solve_silent;
      destruct (Hm (session g)) as [Hherald Hworld]
  end;
  repeat split; intros; try congruence; try assumption.

(** Closes the frame of a command that acts on the actor. *)
Ltac acting_command Hpc :=
  injection Hpc as <-;
  cbn [on_session session set_session set_running set_auto_mode set_step_mode
       running];
  repeat split; intros; try congruence; simplify_eq;
  match goal with
  | Hout : _ ∉ _ |- _ => exfalso; apply Hout; repeat constructor
  | Hcase : _ ∨ _ |- _ => destruct Hcase; discriminate
  end.

(** X14: what a command can touch.  [process_command] never raises.  Only
    [quit] clears [running] and nothing sets it.  No command but [reset]
    changes the tick count or the actor's life, raises its hunger, resizes
    the grid or adds food.  Commands other than move, eat, wait and reset,
    above all unknown ones, and an empty line or a bare [move], leave the
    actor and the world exactly as they were. *)
Theorem process_command_frame (now : string) (gen : nat → Z)
    (parts : list string) (g : Game) :
  ∃ g',
    process_command now gen parts g = Some g'
    ∧ (head parts ≠ Some "reset" →
       tick_count g' = tick_count g
       ∧ alive (herald (session g')) = alive (herald (session g))
       ∧ (0 ≤ hunger (herald (session g)) →
          hunger (herald (session g')) ≤ hunger (herald (session g)))
       ∧ width (world (session g')) = width (world (session g))
       ∧ height (world (session g')) = height (world (session g))
       ∧ food_locations (world (session g')) ⊆ food_locations (world (session g)))
    ∧ (head parts = Some "quit" → running g' = false)
    ∧ (head parts ≠ Some "quit" → running g' = running g)
    ∧ (∀ cmd, head parts = Some cmd →
              cmd ∉ ["move"; "eat"; "wait"; "reset"] →
              herald (session g') = herald (session g)
              ∧ world (session g') = world (session g))
    ∧ (parts = [] ∨ parts = ["move"] →
       herald (session g') = herald (session g)
       ∧ world (session g') = world (session g)).
Proof.
  destruct (process_command_step now gen parts g) as (g' & Hpc & Hstep).
  exists g'. split; [exact Hpc|]. split.
  { intros Hnot. destruct Hstep as [[Hreset _]|(_ & Hacts & Hcount)]; [done|].
    destruct Hacts as [[Hwd Hht Hfood _ _ _ _ _] _ Hhunger Halive].
    repeat split; try done. intros Hpos. by apply Hhunger. }
  clear Hstep. destruct parts as [|cmd args].
  { injection Hpc as <-. repeat split; intros; try done. }
  unfold process_command in Hpc. cbn [head].
  destruct (String.eqb_spec cmd "move") as [->|Hmove].
  { destruct args as [|direction args]; [silent_command Hpc|acting_command Hpc]. }
  destruct (String.eqb_spec cmd "eat") as [->|Heat]; [acting_command Hpc|].
  destruct (String.eqb_spec cmd "wait") as [->|Hwait]; [acting_command Hpc|].
  destruct (String.eqb_spec cmd "status") as [->|Hstatus]; [silent_command Hpc|].
  destruct (String.eqb_spec cmd "auto") as [->|Hauto]; [silent_command Hpc|].
  destruct (String.eqb_spec cmd "step") as [->|Hstep]; [silent_command Hpc|].
  destruct (String.eqb_spec cmd "stop") as [->|Hstop]; [silent_command Hpc|].
  destruct (String.eqb_spec cmd "reset") as [->|Hreset].
  { destruct (reset_world_fresh gen true g) as (g1 & w & Hreset & _ & _ & _ & _ & _ & _ & Hrun).
    rewrite Hreset in Hpc. injection Hpc as <-. clear Hreset.
    split; [intros [= ?]|]. split; [intros _; exact Hrun|]. split.
    - intros cmd [= <-] Hout. exfalso. apply Hout. repeat constructor.
    - intros [?|?]; discriminate. }
  destruct (String.eqb_spec cmd "help") as [->|Hhelp]; [silent_command Hpc|].
  destruct (String.eqb_spec cmd "quit") as [->|Hquit]; silent_command Hpc.
Qed.

Lemma process_command_frame_witness :
  ∃ gen g g',
    Game_init gen = Some g
    ∧ process_command "12:00:00" gen ["dance"] g = Some g'
    ∧ herald (session g') = herald (session g)
    ∧ running g' = running g.
Proof.
  exists (λ i, Z.of_nat i * 7).
  destruct (Game_init_some (λ i, Z.of_nat i * 7)) as (g & Hinit & _).
  destruct (process_command_frame "12:00:00" (λ i, Z.of_nat i * 7) ["dance"] g)
    as (g' & Hpc & _ & _ & Hrun & Hframe & _).
  exists g, g'. split; [exact Hinit|]. split; [exact Hpc|]. split.
  - apply (Hframe "dance"); [reflexivity|].
    rewrite !not_elem_of_cons. repeat (split; [discriminate|]). apply not_elem_of_nil.
  - apply Hrun. discriminate.
Defined.

(** ** The session loop *)

Lemma game_ok_same g g' :
  herald (session g') = herald (session g) →
  world (session g') = world (session g) →
  tick_count g' = tick_count g →
  game_ok g → game_ok g'.
Proof.
  intros Hh Hw Ht [Hb Hwd Hht Hf Hs Hhe Hhi Hc Hd].
  split; unfold in_bounds, healthy in *; rewrite ?Hh, ?Hw, ?Ht; assumption.
Qed.

Lemma live_ok_acts g g' :
  acts (session g) (session g') → tick_count g' = tick_count g →
  live_ok g → live_ok g'.
Proof.
  intros [[Hwd Hht Hfood _ Hbounds _ _ Hhist] Hhealthy Hhunger Halive] Ht
         [[Hb Hw Hh Hf Hs Hhe Hhi Hc Hd] Hlive].
  split; [|congruence]. split; rewrite ?Hwd, ?Hht, ?Ht; auto.
  - intros c Hc'. apply Hfood in Hc'. apply Hf in Hc'.
    unfold is_valid_position in *. by rewrite Hwd, Hht.
  - etrans; [apply subseteq_size, Hfood|done].
  - destruct Hhe as (_ & _ & Hpos & _). specialize (Hhunger ltac:(lia)). lia.
  - congruence.
Qed.

Lemma live_ok_on_session {A} (m : M A) g :
  acting m → live_ok g → live_ok (on_session m g).
Proof. intros Hm. apply live_ok_acts; [apply Hm | done]. Qed.

Lemma live_ok_set_auto_mode v g : live_ok g → live_ok (set_auto_mode v g).
Proof. apply live_ok_acts; [apply acts_refl | done]. Qed.

Lemma live_ok_set_step_mode v g : live_ok g → live_ok (set_step_mode v g).
Proof. apply live_ok_acts; [apply acts_refl | done]. Qed.

Lemma silent_draw_world g :
  herald (session (draw_world g)) = herald (session g)
  ∧ world (session (draw_world g)) = world (session g)
  ∧ tick_count (draw_world g) = tick_count g
  ∧ running (draw_world g) = running g
  ∧ auto_mode (draw_world g) = auto_mode g
  ∧ step_mode (draw_world g) = step_mode g.
Proof.
  unfold draw_world.
  match goal with
  | |- context [on_session ?m g] => assert (silent m) as Hm by solve_silent
  end.
  destruct (Hm (session g)) as [Hh Hw]. by repeat split.
Qed.

Lemma live_ok_draw_world g : live_ok g → live_ok (draw_world g).
Proof.
  destruct (silent_draw_world g) as (Hh & Hw & Ht & _).
  intros [Hok Hlive]. split; [by apply (game_ok_same g)|by rewrite Hh].
Qed.

Lemma reset_live_ok gen show_message g g' :
  reset_world gen show_message g = Some g' → live_ok g'.
Proof.
  destruct (reset_world_fresh gen show_message g)
    as (g1 & w & -> & Hw & Hworld & Hherald & Hcount & _).
  intros [= <-]. split; [by apply (fresh_game_ok _ w gen)|by rewrite Hherald].
Qed.

Lemma turn_action_ok i g :
  live_ok g → ∃ g', turn_action i g = Some g' ∧ live_ok g'.
Proof.
  intros Hg. unfold turn_action. destruct (auto_mode g).
  { destruct (in_stop_key i); eexists; (split; [reflexivity|]).
    - apply live_ok_on_session; [solve_acting|].
      apply live_ok_set_auto_mode, live_ok_on_session; [solve_acting|done].
    - apply live_ok_on_session; [solve_acting|].
      apply live_ok_on_session; [solve_acting|done]. }
  destruct (step_mode g).
  { destruct (String.eqb _ _); eexists; (split; [reflexivity|]).
    - apply live_ok_on_session; [solve_acting|].
      apply live_ok_set_step_mode, live_ok_on_session; [solve_acting|done].
    - apply live_ok_on_session; [solve_acting|].
      apply live_ok_on_session; [solve_acting|done]. }
  set (g1 := on_session (print "Your command (or 'help'): ") g).
  assert (live_ok g1) as Hg1 by (apply live_ok_on_session; [solve_acting|done]).
  destruct (process_command_step (in_now i) (in_gen i) (in_parts i) g1)
    as (g' & Hpc & [[_ Hreset]|(_ & Hacts & Hcount)]);
    exists g'; (split; [exact Hpc|]).
  - by apply (reset_live_ok (in_gen i) true g1).
  - by apply (live_ok_acts g1).
Qed.

Lemma tick_game_ok now g :
  live_ok g →
  game_ok (set_tick_count (tick_count g + 1) (on_session (tick now) g)).
Proof.
  intros [[Hb Hw Hh Hf Hs Hhe Hhi Hc Hd] Hlive].
  pose proof (evolves_tick now (session g)) as [Hwd Hht Hfood _ Hbounds _ _ Hhist].
  pose proof (healthy_tick now (session g) Hhe) as Hhe'.
  split; cbn [session set_tick_count on_session set_session tick_count];
    rewrite ?Hwd, ?Hht; auto.
  - intros c Hc'. apply Hfood in Hc'. apply Hf in Hc'.
    unfold is_valid_position in *. by rewrite Hwd, Hht.
  - etrans; [apply subseteq_size, Hfood|done].
  - destruct Hhe as (Hr & _). unfold exec. rewrite tick_eq. cbn [snd].
    rewrite Hlive, Hr. cbn zeta.
    destruct (Z.leb_spec 100 (hunger (herald (session g)) + 5)); simpl; lia.
  - destruct Hhe as (Hr & _). unfold exec. rewrite tick_eq. cbn [snd].
    rewrite Hlive, Hr. cbn zeta.
    destruct (Z.leb_spec 100 (hunger (herald (session g)) + 5)); simpl; [done|].
    congruence.
Qed.

Lemma turn_end_ok i g :
  live_ok g → ∃ g', turn_end i g = Some g' ∧ game_ok g'.
Proof.
  intros Hg. unfold turn_end. cbn zeta.
  pose proof (tick_game_ok (in_tick_now i) g Hg) as Hok.
  set (g3 := set_tick_count _ (on_session (tick (in_tick_now i)) g)) in *.
  destruct (alive (herald (session g3))); cbn [negb]; [by exists g3|].
  match goal with
  | |- context [on_session ?m (draw_world g3)] =>
      assert (silent m) as Hm by solve_silent;
      set (g4 := on_session m (draw_world g3))
  end.
  assert (game_ok g4) as Hok4.
  { destruct (silent_draw_world g3) as (Hh & Hw & Ht & _).
    destruct (Hm (session (draw_world g3))) as [Hh' Hw'].
    apply (game_ok_same g3); [| |done|done].
    - etrans; [apply Hh'|done].
    - etrans; [apply Hw'|done]. }
  destruct (_ || _); [|by exists g4].
  destruct (reset_world_fresh (in_replay_gen i) true g4) as (g5 & w & Hreset & _).
  exists g5. split; [done|].
  by apply (reset_live_ok (in_replay_gen i) true g4).
Qed.

Lemma turn_ok i g : live_ok g → ∃ g', turn i g = Some g' ∧ game_ok g'.
Proof.
  intros Hg. unfold turn.
  destruct (turn_action_ok i (draw_world g)) as (g2 & -> & Hg2);
    [by apply live_ok_draw_world|].
  cbn [mbind option_bind]. by apply turn_end_ok.
Qed.

Lemma loop_ok inputs : ∀ g, game_ok g → ∃ g', loop inputs g = Some g' ∧ game_ok g'.
Proof.
  induction inputs as [|i inputs IH]; intros g Hg; cbn [loop];
    destruct (running g && alive (herald (session g))) eqn:Hguard.
  - by exists g.
  - eexists. split; [reflexivity|]. by apply (game_ok_same g).
  - apply andb_true_iff in Hguard as [_ Hlive].
    destruct (turn_ok i g) as (g1 & -> & Hg1); [by split|].
    cbn [mbind option_bind]. by apply IH.
  - eexists. split; [reflexivity|]. by apply (game_ok_same g).
Qed.

(** X15: [reset_world].  A reset never raises and always yields a game in
    its starting state: a new live actor at (5,5) with hunger 0 and an empty
    history, inside a 10 by 10 world with at most eight food cells, all
    inside the grid; the tick count is 0 and auto mode is off.  The [running]
    flag and, unlike auto mode, step mode survive the reset.  The [reset]
    command is this reset. *)
Theorem reset_world_spec (gen : nat → Z) (show_message : bool) (g : Game) :
  ∃ g',
    reset_world gen show_message g = Some g'
    ∧ herald (session g') = Herald_init 5 5
    ∧ in_bounds (session g')
    ∧ width (world (session g')) = 10
    ∧ height (world (session g')) = 10
    ∧ (∀ c, c ∈ food_locations (world (session g')) →
            is_valid_position (world (session g')) c.1 c.2 = true)
    ∧ (size (food_locations (world (session g'))) ≤ 8)%nat
    ∧ tick_count g' = 0
    ∧ auto_mode g' = false
    ∧ step_mode g' = step_mode g
    ∧ running g' = running g
    ∧ ∀ now args, process_command now gen ("reset" :: args) g
                  = reset_world gen true g.
Proof.
  destruct (reset_world_fresh gen show_message g)
    as (g' & w & Hreset & Hw & Hworld & Hherald & Hcount & Hauto & Hstep & Hrun).
  exists g'. split; [exact Hreset|].
  destruct (fresh_game_ok g' w gen Hw Hworld Hherald Hcount)
    as [Hb Hwd Hht Hf Hs _ _ _ _].
  do 10 (split; [assumption|]). reflexivity.
Qed.

(** X16: what the session loop maintains.  [Game()] never raises, and for
    every sequence of turn inputs [run] never raises either; in the game it
    reaches, the actor is inside the 10 by 10 grid, every food cell is inside
    the grid and there are at most eight, hunger is in [0,100] and at most 5
    times the tick count, and the history has at most 20 entries.  A dead
    actor has hunger 100 and has lived at least 20 ticks: the loop lets no
    dead actor move or eat. *)
Theorem session_invariants (gen : nat → Z) (inputs : list TurnInput) :
  ∃ g0 g,
    Game_init gen = Some g0
    ∧ Game_run inputs g0 = Some g
    ∧ in_bounds (session g)
    ∧ width (world (session g)) = 10
    ∧ height (world (session g)) = 10
    ∧ (∀ c, c ∈ food_locations (world (session g)) →
            is_valid_position (world (session g)) c.1 c.2 = true)
    ∧ (size (food_locations (world (session g))) ≤ 8)%nat
    ∧ 0 ≤ hunger (herald (session g)) ≤ 100
    ∧ hunger (herald (session g)) ≤ 5 * tick_count g
    ∧ (length (actions_taken (herald (session g))) ≤ 20)%nat
    ∧ (alive (herald (session g)) = false →
       hunger (herald (session g)) = 100 ∧ 20 ≤ tick_count g).
Proof.
  destruct (Game_init_some gen) as (g0 & Hinit & Hok0).
  unfold Game_run.
  match goal with
  | |- context [on_session ?m _] => assert (silent m) as Hm by solve_silent
  end.
  match goal with
  | |- context [loop inputs (on_session ?m _)] =>
      destruct (loop_ok inputs (on_session m g0)) as (g & Hloop & Hok)
  end.
  { destruct (Hm (session g0)) as [Hh Hw]. by apply (game_ok_same g0). }
  exists g0, g. split; [exact Hinit|]. split; [exact Hloop|].
  destruct Hok as [Hb Hwd Hht Hf Hs (_ & _ & Hrange & _) Hhi Hc Hd].
  do 5 (split; [assumption|]). split; [exact Hrange|]. split; [exact Hc|].
  split; [exact Hhi|]. intros Hdead. specialize (Hd Hdead). split; [exact Hd|lia].
Qed.
